(** * Affirm Risk Simulator: the quantitative core of [src/utils/simulation.ts]

    A shallow embedding of the three exported functions of
    [src/utils/simulation.ts] ([generateMockLoans], [trainPDModel],
    [runVasicekSimulation]) and of the records of the types module.

    Conventions of the embedding.
    - A TypeScript [number] is a real number ([R]): the values the
      specification speaks of.  Rounding, infinities and NaN of IEEE doubles
      are not part of this model; where a statement turns on them,
      [trainPDModel] is given again on binary64 numbers (module
      [Binary64]).  [Math.exp], [Math.log], [Math.sqrt],
      [Math.cos] and [Math.PI] are the functions of the same name on [R].
      Where JavaScript has no real value (the square root or the logarithm
      of a negative number, a division by zero), the functions of the
      standard library still have one; no statement below rests on it.
    - [Math.random] and [performance.now] read an ambient source.  The source
      is made explicit as a [World]: a sequence of uniform draws and a
      sequence of clock readings, each with a cursor.
    - A call completes normally or throws.  Nothing in
      [src/utils/simulation.ts] throws by itself; [normInv] may.
    - [normCDF] and [normInv] are imported from [./statistics], which is not
      part of the sources at hand; they are parameters of the development. *)

From Stdlib Require Import Reals Lra Lia List ZArith String.
From Stdlib Require Import Sorted Permutation.
From Stdlib Require PrimFloat FloatOps FloatAxioms Uint63.
Import ListNotations.

Open Scope R_scope.

(** ** Data model (the types module) *)

Record Loan : Type := mkLoan {
  id : R;
  EAD : R;
  LGD : R;
  prior_late_payments : R;
  pd_base : R;
  defaulted : bool
}.

(** [var99] is read from an array by index, so it is [undefined] ([None])
    when the index falls outside the array. *)
Record SimulationResult : Type := mkSimulationResult {
  scenarioName : string;
  stressFactor : R;
  meanEL : R;
  var99 : option R;
  losses : list R;
  processingTime : R
}.

(** ** Completions, the ambient world and the evaluation monad *)

(** The failure kinds named by the specification. *)
Inductive Failure : Type :=
| InvalidInput
| InvalidParameter
| NumericDomainError.

Inductive completion (A : Type) : Type :=
| Normal (v : A)
| Throw (e : Failure).

Arguments Normal {A} v.
Arguments Throw {A} e.

Record World : Type := mkWorld {
  Math_random_seq : nat -> R;
  drawn : nat;
  performance_clock : nat -> R;
  ticks : nat
}.

Definition Eval (A : Type) : Type := World -> completion (A * World).

Definition ret {A : Type} (a : A) : Eval A :=
  fun w => Normal (a, w).

Definition bind {A B : Type} (m : Eval A) (k : A -> Eval B) : Eval B :=
  fun w =>
    match m w with
    | Normal (a, w') => k a w'
    | Throw e => Throw e
    end.

Definition lift {A : Type} (c : completion A) : Eval A :=
  fun w =>
    match c with
    | Normal a => Normal (a, w)
    | Throw e => Throw e
    end.

Declare Scope eval_scope.
Delimit Scope eval_scope with eval.
Notation "x <- m ;; k" := (bind m (fun x => k))
  (at level 61, m at next level, right associativity) : eval_scope.
Open Scope eval_scope.

(** [Math.random()]: the next uniform draw. *)
Definition Math_random : Eval R :=
  fun w =>
    Normal (Math_random_seq w (drawn w),
            mkWorld (Math_random_seq w) (S (drawn w))
                    (performance_clock w) (ticks w)).

(** [performance.now()]: the next clock reading. *)
Definition performance_now : Eval R :=
  fun w =>
    Normal (performance_clock w (ticks w),
            mkWorld (Math_random_seq w) (drawn w)
                    (performance_clock w) (S (ticks w))).

(** [Math.floor], as the integer it denotes. *)
Definition Math_floor (x : R) : Z := Int_part x.

(** Number of times the body of [for (let i = 0; i < bound; i++)] runs:
    the least natural number [n] with [bound <= n], so that the guard
    [i < bound] holds for [i < n] and for no other index
    ([trip_count_guard] below). *)
Definition trip_count (bound : R) : nat := Z.to_nat (- Math_floor (- bound)).

(** [for (let i = start; ...; i++) body], run for [n] rounds on an
    accumulated state. *)
Fixpoint for_loop {T : Type} (n : nat) (i : nat)
    (body : nat -> T -> Eval T) (s : T) : Eval T :=
  match n with
  | O => ret s
  | S n' => s' <- body i s ;; for_loop n' (S i) body s'
  end.

(** The same loop for a body without effects. *)
Fixpoint for_pure {T : Type} (n : nat) (body : T -> T) (s : T) : T :=
  match n with
  | O => s
  | S n' => for_pure n' body (body s)
  end.

(** [xs.map(f)] for a callback that may throw: left to right, the first
    throw aborts the traversal. *)
Fixpoint Array_map {A B : Type} (f : A -> Eval B) (xs : list A)
    : Eval (list B) :=
  match xs with
  | [] => ret []
  | x :: xs' => y <- f x ;; ys <- Array_map f xs' ;; ret (y :: ys)
  end.

(** [a > b] and [a === b] on numbers, as booleans. *)
Definition gtb (a b : R) : bool := if Rgt_dec a b then true else false.
Definition strict_eqb (a b : R) : bool := if Req_dec_T a b then true else false.

(** [xs[i]] for an integer index: [undefined] outside the array. *)
Definition Array_get (xs : list R) (i : Z) : option R :=
  if (i <? 0)%Z then None else nth_error xs (Z.to_nat i).

(** [xs.sort(cmp)]: the stable sort under the comparator [cmp]; an element
    goes after another only when the comparator is positive. *)
Fixpoint sort_insert (cmp : R -> R -> R) (x : R) (xs : list R) : list R :=
  match xs with
  | [] => [x]
  | y :: ys =>
      if Rgt_dec (cmp x y) 0 then y :: sort_insert cmp x ys else x :: y :: ys
  end.

Fixpoint Array_sort (cmp : R -> R -> R) (xs : list R) : list R :=
  match xs with
  | [] => []
  | x :: xs' => sort_insert cmp x (Array_sort cmp xs')
  end.

(** [xs.reduce((sum, l) => sum + l, 0)]. *)
Definition Array_sum (xs : list R) : R :=
  fold_left (fun sum l => sum + l) xs 0.

(** ** [generateMockLoans] *)

Definition generateMockLoans (count : R) : Eval (list Loan) :=
  for_loop (trip_count count) 0
    (fun i loans =>
       r1 <- Math_random ;;
       let EAD := 500 + r1 * 4500 in
       let LGD := 0.6 in
       r2 <- Math_random ;;
       let prior_late_payments := IZR (Math_floor (r2 * 6)) in
       r3 <- Math_random ;;
       let latent_risk := -3 + (0.8 * prior_late_payments) + (r3 * 1.5) in
       let defaulted := gtb latent_risk 0 in
       ret (loans ++ [mkLoan (INR i) EAD LGD prior_late_payments 0.0 defaulted]))
    [].

(** ** [trainPDModel] *)

Definition learningRate : R := 0.01.
Definition epochs : nat := 500.

(** One pass of the inner [for (const loan of loans)] loop: the two gradient
    accumulators for the current parameters. *)
Definition accumulate (intercept beta : R) (acc : R * R) (loan : Loan) : R * R :=
  let '(dIntercept, dBeta) := acc in
  let x := prior_late_payments loan in
  let y := if defaulted loan then 1 else 0 in
  let z := intercept + (beta * x) in
  let prediction := 1 / (1 + exp (- z)) in
  let error := prediction - y in
  (dIntercept + error, dBeta + error * x).

(** The body of the epoch loop. *)
Definition epoch (loans : list Loan) (params : R * R) : R * R :=
  let '(intercept, beta) := params in
  let '(dIntercept, dBeta) :=
    fold_left (accumulate intercept beta) loans (0, 0) in
  (intercept - (learningRate * dIntercept) / INR (List.length loans),
   beta - (learningRate * dBeta) / INR (List.length loans)).

(** The parameters after the gradient descent loop. *)
Definition fit (loans : list Loan) : R * R :=
  for_pure epochs (epoch loans) (-1.0, 0.5).

(** The callback of the final [loans.map]. *)
Definition apply_model (intercept beta : R) (loan : Loan) : Loan :=
  let z := intercept + (beta * prior_late_payments loan) in
  let pd := 1 / (1 + exp (- z)) in
  mkLoan (id loan) (EAD loan) (LGD loan) (prior_late_payments loan)
         pd (defaulted loan).

Definition trainPDModel (loans : list Loan) : Eval (list Loan) :=
  let '(intercept, beta) := fit loans in
  ret (map (apply_model intercept beta) loans).

(** ** [runVasicekSimulation] *)

Record LoanParam : Type := mkLoanParam {
  exposure : R;
  probitPd : R
}.

Section Simulation.

(** The two functions imported from [./statistics]. *)
Variable normCDF : R -> R.
Variable normInv : R -> completion R.

Definition loanParam (l : Loan) : Eval LoanParam :=
  q <- lift (normInv (pd_base l)) ;;
  ret (mkLoanParam (EAD l * LGD l) q).

(** The loss of one economic scenario: the inner loop over [loanParams]. *)
Definition scenarioLoss (systematicComponent denominator : R)
    (loanParams : list LoanParam) : R :=
  fold_left
    (fun iterationLoss lp =>
       let score := (probitPd lp + systematicComponent) / denominator in
       let pdStressed := normCDF score in
       iterationLoss + exposure lp * pdStressed)
    loanParams 0.

(** The body of the Monte Carlo loop. *)
Definition iteration (sqrtRho sqrtStress denominator : R)
    (loanParams : list LoanParam) (losses : list R) : Eval (list R) :=
  u1 <- Math_random ;;
  let u1 := if strict_eqb u1 0 then 1e-9 else u1 in
  u2 <- Math_random ;;
  let Z := sqrt (-2.0 * ln u1) * cos (2.0 * PI * u2) in
  let systematicComponent := sqrtRho * sqrtStress * Z in
  let iterationLoss :=
    scenarioLoss systematicComponent denominator loanParams in
  ret (losses ++ [iterationLoss]).

Definition runVasicekSimulation (loans : list Loan) (iterations rho
    stressFactor : R) (scenarioName : string) : Eval SimulationResult :=
  start <- performance_now ;;
  let sqrtRho := sqrt rho in
  let sqrtStress := sqrt stressFactor in
  let denominator := sqrt (1 - rho) in
  loanParams <- Array_map loanParam loans ;;
  losses <- for_loop (trip_count iterations) 0
              (fun _ => iteration sqrtRho sqrtStress denominator loanParams)
              [] ;;
  let losses := Array_sort (fun a b => a - b) losses in
  let totalLoss := Array_sum losses in
  let meanEL := totalLoss / iterations in
  let varIndex := Math_floor (iterations * 0.99) in
  let var99 := Array_get losses varIndex in
  stop <- performance_now ;;
  ret (mkSimulationResult scenarioName stressFactor meanEL var99 losses
                          (stop - start)).

(** *** Reference definitions for the statements about the simulation *)

(** The pre-computed loan parameters, without the world: [Throw] when
    [normInv] rejects the PD of some loan, the first one in array order. *)
Fixpoint probits (loans : list Loan) : completion (list LoanParam) :=
  match loans with
  | [] => Normal []
  | l :: loans' =>
      match normInv (pd_base l) with
      | Throw e => Throw e
      | Normal q =>
          match probits loans' with
          | Throw e => Throw e
          | Normal ps => Normal (mkLoanParam (EAD l * LGD l) q :: ps)
          end
      end
  end.

(** The systemic shock computed from two consecutive draws. *)
Definition shock (u1 u2 : R) : R :=
  sqrt (-2.0 * ln (if strict_eqb u1 0 then 1e-9 else u1))
  * cos (2.0 * PI * u2).

(** The losses of [n] consecutive iterations, in the order they are
    pushed, when the draws start at position [d] of the sequence [rs]. *)
Fixpoint raw_losses (sqrtRho sqrtStress denominator : R)
    (loanParams : list LoanParam) (rs : nat -> R) (d n : nat) : list R :=
  match n with
  | O => []
  | S n' =>
      scenarioLoss (sqrtRho * sqrtStress * shock (rs d) (rs (1 + d)%nat))
                   denominator loanParams
      :: raw_losses sqrtRho sqrtStress denominator loanParams rs (2 + d) n'
  end.

(** The result assembled from the loan parameters in world [w], where [w]
    is the world the call starts in. *)
Definition result_of (loanParams : list LoanParam) (iterations rho
    stressFactor : R) (scenarioName : string) (w : World)
    : SimulationResult :=
  let losses :=
    Array_sort (fun a b => a - b)
      (raw_losses (sqrt rho) (sqrt stressFactor) (sqrt (1 - rho))
                  loanParams (Math_random_seq w) (drawn w)
                  (trip_count iterations)) in
  mkSimulationResult scenarioName stressFactor
    (Array_sum losses / iterations)
    (Array_get losses (Math_floor (iterations * 0.99)))
    losses
    (performance_clock w (S (ticks w)) - performance_clock w (ticks w)).

(** [normInv] accepts the PD of every loan of the portfolio. *)
Definition probit_defined (loans : list Loan) : Prop :=
  Forall (fun l => exists q, normInv (pd_base l) = Normal q) loans.

(** Modelled from the spec: the statistics module is missing; this is its
    contract that [normInv] is defined on the open unit interval and that
    [normCDF (normInv p)] gives [p] back there, read on real numbers. *)
Definition quantile_contract : Prop :=
  forall p, 0 < p < 1 -> exists q, normInv p = Normal q /\ normCDF q = p.

End Simulation.

(** ** Reference definitions used in the statements *)

(** The world after [k] more uniform draws. *)
Definition advance (k : nat) (w : World) : World :=
  mkWorld (Math_random_seq w) (k + drawn w) (performance_clock w) (ticks w).

(** The world after one more clock reading. *)
Definition tick (w : World) : World :=
  mkWorld (Math_random_seq w) (drawn w) (performance_clock w) (S (ticks w)).

(** Every draw of the ambient source lies in [[0, 1)], as [Math.random]
    promises. *)
Definition uniform_source (w : World) : Prop :=
  forall k, 0 <= Math_random_seq w k < 1.

(** The loan pushed in round [i] of [generateMockLoans] when the three draws
    of the round start at position [d] of the sequence [rs]. *)
Definition mock_loan (rs : nat -> R) (d i : nat) : Loan :=
  let prior := IZR (Math_floor (rs (1 + d)%nat * 6)) in
  mkLoan (INR i) (500 + rs d * 4500) 0.6 prior 0.0
         (gtb (-3 + (0.8 * prior) + (rs (2 + d)%nat * 1.5)) 0).

Fixpoint mock_loans (rs : nat -> R) (d i n : nat) : list Loan :=
  match n with
  | O => []
  | S n' => mock_loan rs d i :: mock_loans rs (3 + d) (S i) n'
  end.

(** What one generated loan looks like when the draws are uniform. *)
Definition well_formed_mock (l : Loan) : Prop :=
  500 <= EAD l < 5000 /\
  LGD l = 0.6 /\
  (exists k : Z, (0 <= k <= 5)%Z /\ prior_late_payments l = IZR k) /\
  pd_base l = 0 /\
  exists u : R, 0 <= u < 1.5 /\
    (defaulted l = true <-> -3 + 0.8 * prior_late_payments l + u > 0).

(** The logistic function of the model. *)
Definition sigmoid (z : R) : R := 1 / (1 + exp (- z)).

(** The training label of a loan. *)
Definition label (loan : Loan) : R := if defaulted loan then 1 else 0.

(** Sum and mean of a sequence of numbers. *)
Definition Rsum (xs : list R) : R := fold_right Rplus 0 xs.
Definition mean (xs : list R) : R := Rsum xs / INR (List.length xs).

(** Full-batch gradient descent as the specification words it: the gradient
    of the average cross-entropy loss at [(intercept, beta)], and one update
    [param -= learningRate * gradient] with learning rate 0.01. *)
Definition spec_gradient (loans : list Loan) (params : R * R) : R * R :=
  let prediction loan :=
    sigmoid (fst params + snd params * prior_late_payments loan) in
  (mean (map (fun loan => prediction loan - label loan) loans),
   mean (map (fun loan =>
                (prediction loan - label loan) * prior_late_payments loan)
             loans)).

Definition spec_epoch (loans : list Loan) (params : R * R) : R * R :=
  let g := spec_gradient loans params in
  (fst params - 0.01 * fst g, snd params - 0.01 * snd g).

Definition spec_fit (loans : list Loan) : R * R :=
  Nat.iter 500 (spec_epoch loans) (-1, 0.5).

(** The un-stressed expected loss of a portfolio. *)
Definition expected_loss (loans : list Loan) : R :=
  Rsum (map (fun l => EAD l * LGD l * pd_base l) loans).

(** A concrete pair of functions that meets [quantile_contract]: the
    logistic distribution function and its quantile function. *)
Definition logistic_cdf (x : R) : R := 1 / (1 + exp (- x)).

Definition logistic_quantile (p : R) : completion R :=
  if Rlt_dec 0 p then
    if Rlt_dec p 1 then Normal (ln (p / (1 - p)))
    else Throw NumericDomainError
  else Throw NumericDomainError.

(** A concrete world and portfolio for instantiating the statements. *)
Definition sample_world : World :=
  mkWorld (fun k => / INR (2 + k)) 0 (fun k => INR k) 0.

Definition sample_loans : list Loan :=
  [ mkLoan 0 1000 0.6 1 0.01 false;
    mkLoan 1 2000 0.6 4 0.05 true;
    mkLoan 2 3000 0.6 2 0.10 false ].

(** A second world for [sample_world]: another cursor, another clock, other
    draws before the cursor and from the fifth draw after it on. *)
Definition replay_world : World :=
  mkWorld (fun k => if (k <? 7)%nat then 0
                    else if (k <? 11)%nat then / INR (k - 5)
                    else / 2)
          7 (fun k => 2 * INR k) 3.

(** Every loan has a PD strictly between 0 and 1. *)
Definition pd_in_unit (loans : list Loan) : Prop :=
  Forall (fun l => 0 < pd_base l < 1) loans.

(** ** The application component ([App] and [ResultCard])

    The component keeps its values in React state; the setters only store
    what the code below computes.  The two computations of [App] are given
    as programs over the world, the histogram block of [ResultCard] as a
    function of the losses it is rendered with. *)

Definition NUM_LOANS : R := 1000.
Definition ITERATIONS : R := 10000.
Definition RHO : R := 0.2.

(** The effect run on mount: generate the data, train the model; the value
    is the portfolio handed to [setLoans]. *)
Definition initialize : Eval (list Loan) :=
  rawLoans <- generateMockLoans NUM_LOANS ;;
  trainedLoans <- trainPDModel rawLoans ;;
  ret trainedLoans.

Section App.

Variable normCDF : R -> R.
Variable normInv : R -> completion R.

(** [runSimulations], with the deferred callback run to completion: nothing
    for an empty portfolio ([if (!loans.length) return]), otherwise the
    results handed to [setBaselineResult] and [setStressedResult]. *)
Definition runSimulations (loans : list Loan)
    : Eval (option (SimulationResult * SimulationResult)) :=
  if (List.length loans =? 0)%nat then ret None
  else
    resBase <- runVasicekSimulation normCDF normInv loans ITERATIONS RHO 1.0
                 "Baseline Scenario" ;;
    resStress <- runVasicekSimulation normCDF normInv loans ITERATIONS RHO 2.5
                   "Severe Downturn" ;;
    ret (Some (resBase, resStress)).

End App.

(** *** The histogram of [ResultCard] *)

Definition bins : nat := 20.

(** [Math.min(...xs)] and [Math.max(...xs)].  For an empty array JavaScript
    answers [Infinity] and [-Infinity], which are no real numbers: [None]. *)
Definition Math_min (xs : list R) : option R :=
  match xs with
  | [] => None
  | x :: xs' => Some (fold_left Rmin xs' x)
  end.

Definition Math_max (xs : list R) : option R :=
  match xs with
  | [] => None
  | x :: xs' => Some (fold_left Rmax xs' x)
  end.

(** [Math.min(Math.floor((l - min) / step), bins - 1)] as an array index.
    With [step = 0] the quotient is no real number, and JavaScript goes on
    with it: a positive numerator gives [Infinity], which [Math.min] caps at
    [bins - 1]; a zero numerator gives NaN and a negative one [-Infinity],
    neither of which is an array index ([None]). *)
Definition binIdx (min step l : R) : option Z :=
  if Req_dec_T step 0 then
    if Rgt_dec (l - min) 0 then Some (Z.of_nat bins - 1)%Z else None
  else Some (Z.min (Math_floor ((l - min) / step)) (Z.of_nat bins - 1)).

(** [histogram[i]++] for an index inside the array. *)
Fixpoint bump (i : nat) (histogram : list nat) : list nat :=
  match histogram, i with
  | [], _ => []
  | count :: rest, O => S count :: rest
  | count :: rest, S i' => count :: bump i' rest
  end.

(** [histogram[binIdx]++].  A key that is no array index (NaN, a negative
    number) creates a property and leaves the elements alone.  An index
    beyond the array is not met: [binIdx] never exceeds [bins - 1]. *)
Definition increment (histogram : list nat) (idx : option Z) : list nat :=
  match idx with
  | None => histogram
  | Some i => if (i <? 0)%Z then histogram else bump (Z.to_nat i) histogram
  end.

(** The histogram block: [bins] counters, one pass over the losses.  With
    no loss there is nothing to visit, whatever [min], [max] and [step]
    are. *)
Definition histogram_of (losses : list R) : list nat :=
  match Math_min losses, Math_max losses with
  | Some min, Some max =>
      let step := (max - min) / INR bins in
      fold_left (fun histogram l => increment histogram (binIdx min step l))
                losses (repeat 0%nat bins)
  | _, _ => repeat 0%nat bins
  end.

(** [Math.max(...histogram)], for the array of [bins] counters. *)
Definition maxCount (losses : list R) : nat := list_max (histogram_of losses).

(** ** Further reference definitions *)

(** The training data of a loan: the fields the gradient descent reads. *)
Definition training_pair (loan : Loan) : R * bool :=
  (prior_late_payments loan, defaulted loan).

(** The total exposure of a portfolio. *)
Definition total_exposure (loans : list Loan) : R :=
  Rsum (map (fun l => EAD l * LGD l) loans).

(** The argument of the logarithm in the Box-Muller transform, after the
    guard on a zero draw. *)
Definition guarded (u1 : R) : R := if strict_eqb u1 0 then 1e-9 else u1.

(** The sample portfolio with other ids, exposures and incoming PDs. *)
Definition sample_loans_relabelled : list Loan :=
  map (fun l => mkLoan 7 1 1 (prior_late_payments l) 0.5 (defaulted l))
      sample_loans.

(** Two sample loss sequences: one with a spread, one constant. *)
Definition spread_losses : list R := [1; 2; 3].
Definition constant_losses : list R := [246; 246].

(** ** [trainPDModel] on binary64 numbers

    The same function with a [number] as what it is at run time, an IEEE
    754 binary64 value (the primitive floats, rounding to nearest even as
    JavaScript does).  [Math.exp] is a function of the host and stays a
    parameter.  The call has no effect on the world, so it is given as a
    plain function. *)

Module Binary64.

Import PrimFloat.
#[local] Set Warnings "-inexact-float".
Local Open Scope float_scope.

Record Loan : Type := mkLoan {
  id : float;
  EAD : float;
  LGD : float;
  prior_late_payments : float;
  pd_base : float;
  defaulted : bool
}.

(** [loans.length] as a number. *)
Definition length (loans : list Loan) : float :=
  of_uint63 (Uint63.of_Z (Z.of_nat (List.length loans))).

Definition learningRate : float := 0.01.

Section Trainer.

Variable Math_exp : float -> float.

Definition accumulate (intercept beta : float) (acc : float * float)
    (loan : Loan) : float * float :=
  let '(dIntercept, dBeta) := acc in
  let x := prior_late_payments loan in
  let y := if defaulted loan then 1 else 0 in
  let z := intercept + (beta * x) in
  let prediction := 1 / (1 + Math_exp (- z)) in
  let error := prediction - y in
  (dIntercept + error, dBeta + error * x).

Definition epoch (loans : list Loan) (params : float * float)
    : float * float :=
  let '(intercept, beta) := params in
  let '(dIntercept, dBeta) :=
    fold_left (accumulate intercept beta) loans (0, 0) in
  (intercept - (learningRate * dIntercept) / length loans,
   beta - (learningRate * dBeta) / length loans).

Definition fit (loans : list Loan) : float * float :=
  for_pure epochs (epoch loans) (-1.0, 0.5).

Definition apply_model (intercept beta : float) (loan : Loan) : Loan :=
  let z := intercept + (beta * prior_late_payments loan) in
  let pd := 1 / (1 + Math_exp (- z)) in
  mkLoan (id loan) (EAD loan) (LGD loan) (prior_late_payments loan)
         pd (defaulted loan).

Definition trainPDModel (loans : list Loan) : list Loan :=
  let '(intercept, beta) := fit loans in
  map (apply_model intercept beta) loans.

End Trainer.

(** What every binary64 exponential does far from 0: it underflows to 0
    below -745.14 and overflows to [Infinity] above 709.79.  Asked here
    only beyond -800 and 800. *)
Definition exp_saturates (Math_exp : float -> float) : Prop :=
  (forall x, leb x (-800) = true -> Math_exp x = 0) /\
  (forall x, leb 800 x = true -> Math_exp x = infinity).

(** A PD strictly between 0 and 1, with the comparisons of binary64. *)
Definition in_open_unit (pd : float) : Prop :=
  ltb 0 pd = true /\ ltb pd 1 = true.

(** Two loans with 2000 prior late payments: one in default, one not. *)
Definition late_defaulted : Loan := mkLoan 0 1000 0.6 2000 0 true.
Definition late_performing : Loan := mkLoan 0 1000 0.6 2000 0 false.

End Binary64.

(** * Properties *)

(** ** [Math.floor] and loop bounds *)

Lemma Math_floor_bounds (x : R) :
  IZR (Math_floor x) <= x < IZR (Math_floor x) + 1.
Proof.
  unfold Math_floor. destruct (base_Int_part x) as [Hle Hgt]. lra.
Qed.

Lemma Math_floor_unique (x : R) (z : Z) :
  IZR z <= x < IZR z + 1 -> Math_floor x = z.
Proof.
  intros [Hle Hlt]. unfold Math_floor. symmetry.
  apply Int_part_spec. lra.
Qed.

Lemma Math_floor_IZR (z : Z) : Math_floor (IZR z) = z.
Proof. apply Math_floor_unique. lra. Qed.

(** [trip_count bound] counts exactly the indices that pass the loop guard
    [i < bound]. *)
Lemma trip_count_guard (bound : R) (i : nat) :
  INR i < bound <-> (i < trip_count bound)%nat.
Proof.
  unfold trip_count.
  destruct (Math_floor_bounds (- bound)) as [Hle Hlt].
  set (f := Math_floor (- bound)) in *.
  rewrite INR_IZR_INZ. split.
  - intros Hi.
    assert (Hz : (Z.of_nat i < - f)%Z).
    { apply lt_IZR. rewrite opp_IZR. lra. }
    lia.
  - intros Hi.
    assert (Hz : (Z.of_nat i + 1 <= - f)%Z) by lia.
    apply IZR_le in Hz. rewrite plus_IZR, opp_IZR in Hz. lra.
Qed.

Lemma trip_count_IZR (n : Z) : trip_count (IZR n) = Z.to_nat n.
Proof.
  unfold trip_count. rewrite <- opp_IZR, Math_floor_IZR. f_equal. lia.
Qed.

(** ** The portfolio generator *)

Lemma generate_loop (n : nat) :
  forall (i : nat) (acc : list Loan) (w : World),
    for_loop n i
      (fun i loans =>
         r1 <- Math_random ;;
         let EAD := 500 + r1 * 4500 in
         let LGD := 0.6 in
         r2 <- Math_random ;;
         let prior_late_payments := IZR (Math_floor (r2 * 6)) in
         r3 <- Math_random ;;
         let latent_risk := -3 + (0.8 * prior_late_payments) + (r3 * 1.5) in
         let defaulted := gtb latent_risk 0 in
         ret (loans ++
                [mkLoan (INR i) EAD LGD prior_late_payments 0.0 defaulted]))
      acc w
    = Normal (acc ++ mock_loans (Math_random_seq w) (drawn w) i n,
              advance (3 * n) w).
Proof.
  induction n as [|n IH]; intros i acc w.
  - simpl. unfold ret, advance. rewrite app_nil_r. destruct w; reflexivity.
  - cbn [for_loop]. unfold bind at 1. unfold bind at 1.
    unfold Math_random at 1. cbn [Math_random_seq drawn performance_clock ticks].
    unfold bind at 1. unfold Math_random at 1.
    cbn [Math_random_seq drawn performance_clock ticks].
    unfold bind at 1. unfold Math_random at 1.
    cbn [Math_random_seq drawn performance_clock ticks].
    unfold ret at 1. rewrite IH.
    cbn [Math_random_seq drawn performance_clock ticks mock_loans].
    rewrite <- app_assoc. cbn [app]. unfold mock_loan, advance.
    cbn [Math_random_seq drawn performance_clock ticks Nat.add].
    do 3 f_equal. lia.
Qed.

Lemma generateMockLoans_eq (count : R) (w : World) :
  generateMockLoans count w
  = Normal (mock_loans (Math_random_seq w) (drawn w) 0 (trip_count count),
            advance (3 * trip_count count) w).
Proof. unfold generateMockLoans. rewrite generate_loop. reflexivity. Qed.

Lemma mock_loans_length (rs : nat -> R) (n : nat) :
  forall d i, List.length (mock_loans rs d i n) = n.
Proof. induction n; intros; simpl; auto. Qed.

Lemma mock_loans_ids (rs : nat -> R) (n : nat) :
  forall d i, map id (mock_loans rs d i n) = map INR (seq i n).
Proof.
  induction n as [|n IH]; intros d i; simpl; [reflexivity|].
  now rewrite IH.
Qed.

Lemma mock_loans_Forall (rs : nat -> R) (P : Loan -> Prop) :
  (forall d i, P (mock_loan rs d i)) ->
  forall n d i, Forall P (mock_loans rs d i n).
Proof.
  intros HP. induction n as [|n IH]; intros d i; simpl; constructor; auto.
Qed.

Lemma INR_seq_NoDup (n : nat) : forall i, NoDup (map INR (seq i n)).
Proof.
  intros i. apply Finite.Injective_map_NoDup.
  - intros a b Hab. now apply INR_eq.
  - apply seq_NoDup.
Qed.

Lemma gtb_true (a b : R) : gtb a b = true <-> a > b.
Proof. unfold gtb. destruct (Rgt_dec a b); split; intros; congruence || auto. Qed.

Lemma mock_loan_well_formed (rs : nat -> R) (d i : nat) :
  (forall k, 0 <= rs k < 1) -> well_formed_mock (mock_loan rs d i).
Proof.
  intros Hrs. unfold well_formed_mock, mock_loan.
  cbn [EAD LGD prior_late_payments pd_base defaulted Nat.add].
  pose proof (Hrs d) as H1. pose proof (Hrs (S d)) as H2.
  pose proof (Hrs (S (S d))) as H3.
  split; [lra|]. split; [reflexivity|]. split; [|split; [lra|]].
  - exists (Math_floor (rs (S d) * 6)). split; [|reflexivity].
    destruct (Math_floor_bounds (rs (S d) * 6)) as [Hle Hlt].
    assert (Hlo : (-1 < Math_floor (rs (S d) * 6))%Z) by (apply lt_IZR; lra).
    assert (Hhi : (Math_floor (rs (S d) * 6) < 6)%Z) by (apply lt_IZR; lra).
    lia.
  - exists (rs (S (S d)) * 1.5). split; [lra|]. apply gtb_true.
Qed.

(** C4. For a positive integer [n] and a uniform source,
    [generateMockLoans n] returns exactly [n] loans; their ids are
    [0, 1, ..., n-1] in this order (hence pairwise distinct); every loan has
    EAD in [[500, 5000)], LGD 0.6, an integer number of prior late payments
    between 0 and 5, [pd_base] 0, and [defaulted] is [latent > 0] for
    [latent = -3 + 0.8 * prior_late_payments + u] with [u] in [[0, 1.5)]. *)
Theorem generateMockLoans_portfolio (n : Z) (w : World) :
  (0 < n)%Z ->
  uniform_source w ->
  exists loans w',
    generateMockLoans (IZR n) w = Normal (loans, w') /\
    List.length loans = Z.to_nat n /\
    map id loans = map INR (seq 0 (Z.to_nat n)) /\
    NoDup (map id loans) /\
    Forall well_formed_mock loans.
Proof.
  intros Hn Hw. rewrite generateMockLoans_eq, trip_count_IZR.
  eexists. eexists. split; [reflexivity|].
  split; [apply mock_loans_length|].
  split; [apply mock_loans_ids|].
  split.
  - rewrite mock_loans_ids. apply INR_seq_NoDup.
  - apply mock_loans_Forall. intros d i. now apply mock_loan_well_formed.
Qed.

(** ** The PD model trainer *)

Lemma sigmoid_range (z : R) : 0 < 1 / (1 + exp (- z)) < 1.
Proof.
  pose proof (exp_pos (- z)) as He.
  set (e := exp (- z)) in *.
  assert (Hpos : 0 < 1 + e) by lra.
  split.
  - apply Rdiv_lt_0_compat; lra.
  - apply (Rmult_lt_reg_r (1 + e)); [exact Hpos|].
    unfold Rdiv. rewrite Rmult_assoc, Rinv_l by lra. lra.
Qed.

Lemma for_pure_iter {T : Type} (f : T -> T) (n : nat) :
  forall s, for_pure n f s = Nat.iter n f s.
Proof.
  induction n as [|n IH]; intros s; [reflexivity|].
  cbn [for_pure]. rewrite IH. symmetry. apply Nat.iter_succ_r.
Qed.

(** The two accumulators of the inner loop are the two sums of the
    per-loan errors. *)
Lemma accumulate_sums (intercept beta : R) (loans : list Loan) :
  forall dI dB,
    fold_left (accumulate intercept beta) loans (dI, dB)
    = (dI + Rsum (map (fun loan =>
                         sigmoid (intercept + beta * prior_late_payments loan)
                         - label loan) loans),
       dB + Rsum (map (fun loan =>
                         (sigmoid (intercept + beta * prior_late_payments loan)
                          - label loan) * prior_late_payments loan) loans)).
Proof.
  induction loans as [|l loans IH]; intros dI dB.
  - cbn. f_equal; lra.
  - cbn [fold_left map Rsum fold_right]. unfold accumulate at 2.
    rewrite IH. unfold sigmoid, label, Rsum. f_equal; lra.
Qed.

Lemma epoch_spec_epoch (loans : list Loan) (params : R * R) :
  epoch loans params = spec_epoch loans params.
Proof.
  destruct params as [intercept beta].
  unfold epoch, spec_epoch, spec_gradient, mean, learningRate.
  rewrite accumulate_sums. cbn [fst snd]. rewrite !length_map.
  f_equal; unfold Rdiv; ring.
Qed.

Lemma fit_spec_fit (loans : list Loan) : fit loans = spec_fit loans.
Proof.
  unfold fit, spec_fit, epochs. rewrite for_pure_iter.
  replace (-1.0, 0.5) with (-1, 0.5) by (f_equal; lra).
  generalize (-1, 0.5). generalize 500%nat.
  induction n as [|n IH]; intros p; [reflexivity|].
  rewrite !Nat.iter_succ. now rewrite IH, epoch_spec_epoch.
Qed.

Lemma trainPDModel_eq (loans : list Loan) (w : World) :
  trainPDModel loans w
  = Normal (map (apply_model (fst (fit loans)) (snd (fit loans))) loans, w).
Proof.
  unfold trainPDModel. destruct (fit loans) as [intercept beta]. reflexivity.
Qed.

(** C3. For a non-empty portfolio, [trainPDModel] gives every loan the PD
    [sigmoid (intercept + beta * prior_late_payments)], where
    [(intercept, beta)] results from exactly 500 full-batch epochs started at
    [(-1.0, 0.5)], each epoch subtracting 0.01 times the mean of
    [prediction - label] from the intercept and 0.01 times the mean of
    [(prediction - label) * feature] from beta. *)
Theorem trainPDModel_gradient_descent (loans : list Loan) (w : World) :
  loans <> [] ->
  exists out,
    trainPDModel loans w = Normal (out, w) /\
    map pd_base out
    = map (fun loan =>
             sigmoid (fst (spec_fit loans)
                      + snd (spec_fit loans) * prior_late_payments loan))
          loans.
Proof.
  intros _. rewrite trainPDModel_eq, fit_spec_fit.
  eexists. split; [reflexivity|].
  rewrite map_map. reflexivity.
Qed.

(** C5, as the code has it: a statement on real numbers.  For a non-empty
    portfolio, [trainPDModel] returns, and every loan it returns has a
    [pd_base] that, computed exactly, lies strictly between 0 and 1.  The
    binary64 value the code computes is the rounded one and does reach 0
    and 1 (module [Binary64Facts] below). *)
Theorem trainPDModel_pd_open_unit (loans : list Loan) (w : World) :
  loans <> [] ->
  exists out,
    trainPDModel loans w = Normal (out, w) /\
    out <> [] /\
    Forall (fun loan => 0 < pd_base loan < 1) out.
Proof.
  intros Hne. rewrite trainPDModel_eq.
  eexists. split; [reflexivity|]. split.
  - intros Hnil. apply map_eq_nil in Hnil. contradiction.
  - apply Forall_forall. intros out Hin.
    apply in_map_iff in Hin. destruct Hin as [l [<- _]].
    apply sigmoid_range.
Qed.

(** C8. [trainPDModel] returns a portfolio of the same length in which the
    loan at each position has the [id], [EAD], [LGD], [prior_late_payments]
    and [defaulted] of the input loan at that position. *)
Theorem trainPDModel_frame (loans : list Loan) (w : World) :
  exists out,
    trainPDModel loans w = Normal (out, w) /\
    List.length out = List.length loans /\
    forall (i : nat) (l : Loan),
      nth_error loans i = Some l ->
      exists l',
        nth_error out i = Some l' /\
        id l' = id l /\ EAD l' = EAD l /\ LGD l' = LGD l /\
        prior_late_payments l' = prior_late_payments l /\
        defaulted l' = defaulted l.
Proof.
  rewrite trainPDModel_eq. eexists. split; [reflexivity|].
  split; [apply length_map|].
  intros i l Hi. eexists. split.
  - rewrite nth_error_map, Hi. reflexivity.
  - cbn. repeat split.
Qed.

(** C10. After [trainPDModel], two loans of the result with the same
    [prior_late_payments] have the same [pd_base], whatever their other
    fields are. *)
Theorem trainPDModel_pd_by_feature (loans : list Loan) (w : World) :
  exists out,
    trainPDModel loans w = Normal (out, w) /\
    forall l1 l2,
      In l1 out -> In l2 out ->
      prior_late_payments l1 = prior_late_payments l2 ->
      pd_base l1 = pd_base l2.
Proof.
  rewrite trainPDModel_eq. eexists. split; [reflexivity|].
  intros l1 l2 H1 H2 Hx.
  apply in_map_iff in H1. destruct H1 as [a [<- _]].
  apply in_map_iff in H2. destruct H2 as [b [<- _]].
  cbn in *. now rewrite Hx.
Qed.

(** ** Sorting *)

Lemma sort_insert_perm (cmp : R -> R -> R) (x : R) (xs : list R) :
  Permutation (sort_insert cmp x xs) (x :: xs).
Proof.
  induction xs as [|y ys IH]; cbn [sort_insert]; [reflexivity|].
  destruct (Rgt_dec (cmp x y) 0); [|reflexivity].
  rewrite IH. apply perm_swap.
Qed.

Lemma Array_sort_perm (cmp : R -> R -> R) (xs : list R) :
  Permutation (Array_sort cmp xs) xs.
Proof.
  induction xs as [|x xs IH]; cbn [Array_sort]; [reflexivity|].
  rewrite sort_insert_perm. now constructor.
Qed.

Lemma Array_sort_length (cmp : R -> R -> R) (xs : list R) :
  List.length (Array_sort cmp xs) = List.length xs.
Proof. apply Permutation_length, Array_sort_perm. Qed.

Lemma sort_insert_HdRel (a x : R) (xs : list R) :
  a <= x -> HdRel Rle a xs -> HdRel Rle a (sort_insert (fun a b => a - b) x xs).
Proof.
  intros Hax Hhd. destruct xs as [|y ys]; cbn [sort_insert].
  - now constructor.
  - destruct (Rgt_dec (x - y) 0); constructor; [|exact Hax].
    now inversion Hhd.
Qed.

Lemma sort_insert_Sorted (x : R) (xs : list R) :
  Sorted Rle xs -> Sorted Rle (sort_insert (fun a b => a - b) x xs).
Proof.
  induction 1 as [|y ys Hs IH Hhd]; cbn [sort_insert].
  - repeat constructor.
  - destruct (Rgt_dec (x - y) 0) as [Hgt|Hle].
    + constructor; [exact IH|]. apply sort_insert_HdRel; [lra|exact Hhd].
    + constructor; [now constructor|]. constructor. lra.
Qed.

Lemma Array_sort_Sorted (xs : list R) :
  Sorted Rle (Array_sort (fun a b => a - b) xs).
Proof.
  induction xs as [|x xs IH]; cbn [Array_sort]; [constructor|].
  now apply sort_insert_Sorted.
Qed.

Lemma Array_sort_ascending (xs : list R) :
  StronglySorted Rle (Array_sort (fun a b => a - b) xs).
Proof.
  apply Sorted_StronglySorted; [|apply Array_sort_Sorted].
  intros a b c. apply Rle_trans.
Qed.

(** ** Sums *)

Lemma fold_left_Rplus (xs : list R) :
  forall acc, fold_left (fun sum l => sum + l) xs acc = acc + Rsum xs.
Proof.
  induction xs as [|x xs IH]; intros acc; cbn [fold_left Rsum fold_right].
  - lra.
  - rewrite IH. unfold Rsum. lra.
Qed.

Lemma Array_sum_Rsum (xs : list R) : Array_sum xs = Rsum xs.
Proof. unfold Array_sum. rewrite fold_left_Rplus. lra. Qed.

(** ** The 99th percentile index *)

Lemma var_index_exact (n : Z) :
  Math_floor (IZR n * 0.99) = (99 * n / 100)%Z.
Proof.
  apply Math_floor_unique.
  pose proof (Z.div_mod (99 * n) 100 ltac:(lia)) as Hdm.
  pose proof (Z.mod_pos_bound (99 * n) 100 ltac:(lia)) as [Hlo Hhi].
  set (q := (99 * n / 100)%Z) in *. set (r := ((99 * n) mod 100)%Z) in *.
  assert (HR : 99 * IZR n = 100 * IZR q + IZR r).
  { rewrite <- !mult_IZR, <- plus_IZR. now f_equal. }
  apply IZR_le in Hlo. apply IZR_lt in Hhi. lra.
Qed.

Lemma var_index_in_range (n : Z) :
  (0 < n)%Z -> (0 <= Math_floor (IZR n * 0.99) < n)%Z.
Proof.
  intros Hn. rewrite var_index_exact. split.
  - apply Z.div_pos; lia.
  - apply Z.div_lt_upper_bound; lia.
Qed.

(** ** The Monte Carlo engine *)

Section SimulationProperties.

Variable normCDF : R -> R.
Variable normInv : R -> completion R.

Lemma Array_map_loanParam (loans : list Loan) :
  forall w,
    Array_map (loanParam normInv) loans w = lift (probits normInv loans) w.
Proof.
  induction loans as [|l loans IH]; intros w; [reflexivity|].
  cbn [Array_map probits]. unfold bind at 1. unfold loanParam at 1.
  unfold bind at 1. unfold lift at 1.
  destruct (normInv (pd_base l)) as [q|e]; [|reflexivity].
  unfold ret at 1. unfold bind at 1. rewrite IH. unfold lift.
  destruct (probits normInv loans) as [ps|e]; reflexivity.
Qed.

Lemma monte_carlo_loop (a b c : R) (ps : list LoanParam) (n : nat) :
  forall (i : nat) (acc : list R) (w : World),
    for_loop n i (fun _ => iteration normCDF a b c ps) acc w
    = Normal (acc ++ raw_losses normCDF a b c ps
                       (Math_random_seq w) (drawn w) n,
              advance (2 * n) w).
Proof.
  induction n as [|n IH]; intros i acc w.
  - cbn. unfold ret, advance. rewrite app_nil_r. destruct w; reflexivity.
  - cbn [for_loop]. unfold bind at 1. unfold iteration at 1.
    unfold bind at 1. unfold Math_random at 1.
    cbn [Math_random_seq drawn performance_clock ticks].
    unfold bind at 1. unfold Math_random at 1.
    cbn [Math_random_seq drawn performance_clock ticks].
    unfold ret at 1. rewrite IH.
    cbn [Math_random_seq drawn performance_clock ticks raw_losses].
    rewrite <- app_assoc. cbn [app]. unfold shock, advance.
    cbn [Math_random_seq drawn performance_clock ticks Nat.add].
    do 3 f_equal. lia.
Qed.

(** The call in closed form: it throws what [normInv] throws, and otherwise
    returns [result_of] after two clock readings and two draws per
    iteration. *)
Lemma runVasicekSimulation_eq (loans : list Loan) (iterations rho
    stressFactor : R) (scenarioName : string) (w : World) :
  runVasicekSimulation normCDF normInv loans iterations rho stressFactor
                       scenarioName w
  = match probits normInv loans with
    | Throw e => Throw e
    | Normal ps =>
        Normal (result_of normCDF ps iterations rho stressFactor
                          scenarioName w,
                tick (advance (2 * trip_count iterations) (tick w)))
    end.
Proof.
  unfold runVasicekSimulation. unfold bind at 1. unfold performance_now at 1.
  unfold bind at 1. rewrite Array_map_loanParam. unfold lift.
  destruct (probits normInv loans) as [ps|e]; [|reflexivity].
  unfold bind at 1. rewrite monte_carlo_loop.
  unfold bind, performance_now, ret, result_of, tick, advance.
  cbn [Math_random_seq drawn performance_clock ticks app]. reflexivity.
Qed.

Lemma probits_defined (loans : list Loan) :
  probit_defined normInv loans -> exists ps, probits normInv loans = Normal ps.
Proof.
  induction 1 as [|l loans [q Hq] _ [ps IH]]; cbn [probits].
  - now exists [].
  - rewrite Hq, IH. eexists. reflexivity.
Qed.

Lemma raw_losses_length (a b c : R) (ps : list LoanParam) (rs : nat -> R)
    (n : nat) :
  forall d, List.length (raw_losses normCDF a b c ps rs d n) = n.
Proof. induction n; intros; cbn [raw_losses List.length]; auto. Qed.

Lemma result_losses_length (ps : list LoanParam) (iterations rho
    stressFactor : R) (scenarioName : string) (w : World) :
  List.length (losses (result_of normCDF ps iterations rho stressFactor
                                 scenarioName w))
  = trip_count iterations.
Proof.
  unfold result_of. cbn [losses].
  now rewrite Array_sort_length, raw_losses_length.
Qed.

(** The losses depend on the draws the loop consumes and on nothing else of
    the sequence. *)
Lemma raw_losses_ext (a b c : R) (ps : list LoanParam) (rs1 rs2 : nat -> R)
    (n : nat) :
  forall d1 d2,
    (forall k, (k < 2 * n)%nat -> rs1 (d1 + k)%nat = rs2 (d2 + k)%nat) ->
    raw_losses normCDF a b c ps rs1 d1 n
    = raw_losses normCDF a b c ps rs2 d2 n.
Proof.
  induction n as [|n IH]; intros d1 d2 Hagree; [reflexivity|].
  cbn [raw_losses].
  pose proof (Hagree 0%nat ltac:(lia)) as H0.
  pose proof (Hagree 1%nat ltac:(lia)) as H1.
  rewrite !Nat.add_0_r in H0.
  replace (d1 + 1)%nat with (1 + d1)%nat in H1 by lia.
  replace (d2 + 1)%nat with (1 + d2)%nat in H1 by lia.
  rewrite H0, H1. f_equal. apply IH.
  intros k Hk.
  replace (2 + d1 + k)%nat with (d1 + (2 + k))%nat by lia.
  replace (2 + d2 + k)%nat with (d2 + (2 + k))%nat by lia.
  apply Hagree. lia.
Qed.

(** C1. For a positive integer [N] and parameters of the contract
    ([0 <= rho < 1], a non-negative stress factor, uniform draws, so that
    every square root and logarithm of the code is a number), when [normInv]
    accepts the PD of every loan, [runVasicekSimulation] with
    [iterations = N] returns a result whose [losses] has length [N] and is
    sorted ascending, whose [var99] is the element of [losses] at index
    [floor (N * 0.99)], and whose [meanEL] is the sum of the losses divided
    by [N], their average. *)
Theorem runVasicekSimulation_summary (loans : list Loan) (N : Z)
    (rho stressFactor : R) (scenarioName : string) (w : World) :
  (0 < N)%Z ->
  0 <= rho < 1 ->
  0 <= stressFactor ->
  uniform_source w ->
  probit_defined normInv loans ->
  exists r w',
    runVasicekSimulation normCDF normInv loans (IZR N) rho stressFactor
                         scenarioName w = Normal (r, w') /\
    List.length (losses r) = Z.to_nat N /\
    StronglySorted Rle (losses r) /\
    (exists v, var99 r = Some v /\
       nth_error (losses r) (Z.to_nat (Math_floor (IZR N * 0.99)))
       = Some v) /\
    meanEL r = Rsum (losses r) / IZR N /\
    meanEL r = mean (losses r).
Proof.
  intros HN _ _ _ Hdef. rewrite runVasicekSimulation_eq.
  destruct (probits_defined loans Hdef) as [ps ->].
  eexists. eexists. split; [reflexivity|].
  pose proof (result_losses_length ps (IZR N) rho stressFactor
                scenarioName w) as Hlen.
  rewrite trip_count_IZR in Hlen.
  split; [exact Hlen|].
  split; [apply Array_sort_ascending|].
  pose proof (var_index_in_range N HN) as [Hlo Hhi].
  split; [|split].
  - set (r := result_of normCDF ps (IZR N) rho stressFactor scenarioName w)
      in *.
    destruct (nth_error (losses r) (Z.to_nat (Math_floor (IZR N * 0.99))))
      as [v|] eqn:Hnth.
    + exists v. split; [|reflexivity].
      unfold r, result_of in *. cbn [var99 losses] in *.
      unfold Array_get.
      destruct (Z.ltb_spec (Math_floor (IZR N * 0.99)) 0) as [Hneg|_];
        [lia|exact Hnth].
    + apply nth_error_None in Hnth. lia.
  - unfold result_of. cbn [meanEL losses]. now rewrite Array_sum_Rsum.
  - unfold mean. rewrite Hlen. unfold result_of. cbn [meanEL losses].
    rewrite Array_sum_Rsum, INR_IZR_INZ, Z2Nat.id by lia. reflexivity.
Qed.

(** C9. Two calls of [runVasicekSimulation] with the same portfolio,
    iteration count, rho, stress factor and scenario name, in two worlds
    whose random sources deliver the same draws to the loop (two per
    iteration), complete alike: both throw the same failure, or both return
    and their [losses], [meanEL] and [var99] are equal.  The clocks and the
    later draws of the two worlds may differ. *)
Theorem runVasicekSimulation_deterministic (loans : list Loan)
    (iterations rho stressFactor : R) (scenarioName : string)
    (w1 w2 : World) :
  (forall k, (k < 2 * trip_count iterations)%nat ->
     Math_random_seq w1 (drawn w1 + k) = Math_random_seq w2 (drawn w2 + k)) ->
  match runVasicekSimulation normCDF normInv loans iterations rho
                             stressFactor scenarioName w1,
        runVasicekSimulation normCDF normInv loans iterations rho
                             stressFactor scenarioName w2 with
  | Normal (r1, _), Normal (r2, _) =>
      losses r1 = losses r2 /\ meanEL r1 = meanEL r2 /\ var99 r1 = var99 r2
  | Throw e1, Throw e2 => e1 = e2
  | _, _ => False
  end.
Proof.
  intros Hagree. rewrite !runVasicekSimulation_eq.
  destruct (probits normInv loans) as [ps|e]; [|reflexivity].
  unfold result_of. cbn [losses meanEL var99].
  rewrite (raw_losses_ext _ _ _ ps _ _ _ (drawn w1) (drawn w2) Hagree).
  repeat split.
Qed.

Lemma trip_count_nonpositive (bound : R) :
  bound <= 0 -> trip_count bound = 0%nat.
Proof.
  intros Hb. destruct (trip_count bound) as [|n] eqn:Hn; [reflexivity|].
  assert (Hlt : (0 < trip_count bound)%nat) by lia.
  apply trip_count_guard in Hlt. cbn in Hlt. lra.
Qed.

(** [runVasicekSimulation] validates neither [rho] nor [iterations]. *)
Lemma runVasicekSimulation_returns (loans : list Loan) (iterations rho
    stressFactor : R) (scenarioName : string) (w : World) :
  probit_defined normInv loans ->
  exists ps,
    probits normInv loans = Normal ps /\
    runVasicekSimulation normCDF normInv loans iterations rho stressFactor
                         scenarioName w
    = Normal (result_of normCDF ps iterations rho stressFactor
                        scenarioName w,
              tick (advance (2 * trip_count iterations) (tick w))).
Proof.
  intros Hdef. rewrite runVasicekSimulation_eq.
  destruct (probits_defined loans Hdef) as [ps ->].
  exists ps. split; reflexivity.
Qed.

(** C7, as the code has it.  [runVasicekSimulation] checks neither [rho]
    nor [iterations]: whatever their values, it returns a result whenever
    [normInv] accepts the PD of every loan, with one loss per loop round;
    when [iterations <= 0] the result has no losses and an undefined
    [var99]. *)
Theorem runVasicekSimulation_unchecked (loans : list Loan) (iterations rho
    stressFactor : R) (scenarioName : string) (w : World) :
  probit_defined normInv loans ->
  exists r w',
    runVasicekSimulation normCDF normInv loans iterations rho stressFactor
                         scenarioName w = Normal (r, w') /\
    List.length (losses r) = trip_count iterations /\
    (iterations <= 0 -> losses r = [] /\ var99 r = None).
Proof.
  intros Hdef.
  destruct (runVasicekSimulation_returns loans iterations rho stressFactor
              scenarioName w Hdef) as [ps [_ ->]].
  eexists. eexists. split; [reflexivity|].
  pose proof (result_losses_length ps iterations rho stressFactor
                scenarioName w) as Hlen.
  split; [exact Hlen|].
  intros Hle. rewrite (trip_count_nonpositive iterations Hle) in Hlen.
  apply length_zero_iff_nil in Hlen.
  split; [exact Hlen|].
  unfold result_of in *. cbn [var99 losses] in *. rewrite Hlen.
  unfold Array_get.
  destruct (Math_floor (iterations * 0.99) <? 0)%Z; [reflexivity|].
  now destruct (Z.to_nat (Math_floor (iterations * 0.99))).
Qed.

Lemma contract_defined (loans : list Loan) :
  quantile_contract normCDF normInv -> pd_in_unit loans ->
  probit_defined normInv loans.
Proof.
  intros Hc Hpd. unfold probit_defined.
  apply (Forall_impl _ (P := fun l => 0 < pd_base l < 1)); [|exact Hpd].
  intros l Hl. destruct (Hc _ Hl) as [q [Hq _]]. now exists q.
Qed.

(** Under the contract each loan parameter carries the exposure of its
    loan and a probit that [normCDF] maps back to the PD. *)
Lemma probits_contract (loans : list Loan) :
  quantile_contract normCDF normInv -> pd_in_unit loans ->
  exists ps,
    probits normInv loans = Normal ps /\
    Forall2 (fun l p => exposure p = EAD l * LGD l /\
                        normCDF (probitPd p) = pd_base l) loans ps.
Proof.
  intros Hc. induction 1 as [|l loans Hl _ [ps [Hps HF]]]; cbn [probits].
  - exists []. split; [reflexivity|constructor].
  - destruct (Hc _ Hl) as [q [Hq Hcdf]]. rewrite Hq, Hps.
    eexists. split; [reflexivity|].
    constructor; [|exact HF]. cbn. split; [reflexivity|exact Hcdf].
Qed.

Lemma scenarioLoss_no_shock (loans : list Loan) (ps : list LoanParam)
    (s Z : R) :
  Forall2 (fun l p => exposure p = EAD l * LGD l /\
                      normCDF (probitPd p) = pd_base l) loans ps ->
  scenarioLoss normCDF (0 * s * Z) 1 ps = expected_loss loans.
Proof.
  intros HF. unfold scenarioLoss, expected_loss.
  assert (Hacc : forall acc,
    fold_left
      (fun iterationLoss lp =>
         let score := (probitPd lp + 0 * s * Z) / 1 in
         let pdStressed := normCDF score in
         iterationLoss + exposure lp * pdStressed) ps acc
    = acc + Rsum (map (fun l => EAD l * LGD l * pd_base l) loans)).
  { induction HF as [|l p loans ps [He Hp] _ IH]; intros acc;
      cbn [fold_left map Rsum fold_right].
    - lra.
    - rewrite IH. unfold Rsum.
      replace ((probitPd p + 0 * s * Z) / 1) with (probitPd p) by field.
      rewrite He, Hp. lra. }
  rewrite Hacc. lra.
Qed.

Lemma raw_losses_no_shock (loans : list Loan) (ps : list LoanParam)
    (s : R) (rs : nat -> R) (n : nat) :
  Forall2 (fun l p => exposure p = EAD l * LGD l /\
                      normCDF (probitPd p) = pd_base l) loans ps ->
  forall d,
    Forall (fun loss => loss = expected_loss loans)
           (raw_losses normCDF 0 s 1 ps rs d n).
Proof.
  intros HF. induction n as [|n IH]; intros d; cbn [raw_losses];
    constructor; [|apply IH].
  now apply scenarioLoss_no_shock.
Qed.

(** With [rho = 0] the shock drops out and the denominator is 1. *)
Lemma result_of_rho_zero (loans : list Loan) (ps : list LoanParam)
    (iterations stressFactor : R) (scenarioName : string) (w : World) :
  Forall2 (fun l p => exposure p = EAD l * LGD l /\
                      normCDF (probitPd p) = pd_base l) loans ps ->
  Forall (fun loss => loss = expected_loss loans)
         (losses (result_of normCDF ps iterations 0 stressFactor
                            scenarioName w)).
Proof.
  intros HF. unfold result_of. cbn [losses].
  rewrite Rminus_0_r, sqrt_0, sqrt_1.
  eapply Permutation_Forall.
  - symmetry. apply Array_sort_perm.
  - now apply raw_losses_no_shock.
Qed.

(** C2. When [normInv] and [normCDF] are inverse to each other on the open
    unit interval and every loan has its PD in that interval,
    [runVasicekSimulation] with [rho = 0] returns a result in which the
    loss of every iteration is the un-stressed expected loss of the
    portfolio, the sum of [EAD * LGD * pd_base] over its loans, whatever
    the uniform draws and the stress factor (non-negative, so that its
    square root is a number) are. *)
Theorem runVasicekSimulation_rho_zero (loans : list Loan) (iterations
    stressFactor : R) (scenarioName : string) (w : World) :
  quantile_contract normCDF normInv ->
  pd_in_unit loans ->
  uniform_source w ->
  0 <= stressFactor ->
  exists r w',
    runVasicekSimulation normCDF normInv loans iterations 0 stressFactor
                         scenarioName w = Normal (r, w') /\
    List.length (losses r) = trip_count iterations /\
    Forall (fun loss => loss = expected_loss loans) (losses r).
Proof.
  intros Hc Hpd _ _. rewrite runVasicekSimulation_eq.
  destruct (probits_contract loans Hc Hpd) as [ps [-> HF]].
  eexists. eexists. split; [reflexivity|].
  split.
  - apply result_losses_length.
  - now apply result_of_rho_zero.
Qed.

End SimulationProperties.

(** [trainPDModel] has no failure path: it returns for every portfolio. *)
Lemma trainPDModel_returns (loans : list Loan) (w : World) :
  exists out, trainPDModel loans w = Normal (out, w).
Proof. rewrite trainPDModel_eq. eexists. reflexivity. Qed.

(** C6, as the code has it.  [trainPDModel] does not reject the empty
    portfolio: it returns it, and it returns for every other portfolio
    too. *)
Theorem trainPDModel_empty (w : World) :
  trainPDModel [] w = Normal ([], w) /\
  forall loans, exists out, trainPDModel loans w = Normal (out, w).
Proof.
  split.
  - rewrite trainPDModel_eq. reflexivity.
  - intros loans. apply trainPDModel_returns.
Qed.

(** ** The concrete instances *)

Lemma logistic_contract : quantile_contract logistic_cdf logistic_quantile.
Proof.
  intros p [Hp0 Hp1]. unfold logistic_quantile, logistic_cdf.
  destruct (Rlt_dec 0 p) as [_|Hn]; [|contradiction].
  destruct (Rlt_dec p 1) as [_|Hn]; [|contradiction].
  eexists. split; [reflexivity|].
  assert (Hx : 0 < p / (1 - p)) by (apply Rdiv_lt_0_compat; lra).
  rewrite exp_Ropp, exp_ln by exact Hx.
  field. lra.
Qed.

Lemma sample_loans_pd : pd_in_unit sample_loans.
Proof. unfold pd_in_unit, sample_loans. repeat constructor; cbn; lra. Qed.

Lemma sample_loans_defined : probit_defined logistic_quantile sample_loans.
Proof.
  apply (contract_defined logistic_cdf).
  - exact logistic_contract.
  - exact sample_loans_pd.
Qed.

Lemma sample_world_uniform : uniform_source sample_world.
Proof.
  intros k. cbn [sample_world Math_random_seq].
  assert (Hk : 2 <= INR (2 + k)).
  { rewrite plus_INR. pose proof (pos_INR k). cbn. lra. }
  assert (Hinv : INR (2 + k) * / INR (2 + k) = 1) by (apply Rinv_r; lra).
  assert (Hpos : 0 < / INR (2 + k)) by (apply Rinv_0_lt_compat; lra).
  nra.
Qed.

Lemma replay_world_agrees (k : nat) :
  (k < 2 * trip_count 2)%nat ->
  Math_random_seq sample_world (drawn sample_world + k)
  = Math_random_seq replay_world (drawn replay_world + k).
Proof.
  rewrite trip_count_IZR. intros Hk.
  assert (Hk4 : (k < 4)%nat) by (cbn in Hk; lia).
  destruct k as [|[|[|[|k]]]]; [reflexivity..|lia].
Qed.

(** C6 fails on the code: the empty portfolio is not rejected. *)
Lemma empty_portfolio_not_rejected :
  trainPDModel [] sample_world <> Throw InvalidInput.
Proof. rewrite trainPDModel_eq. discriminate. Qed.

(** C7 fails on the code: a call with [rho = 1] and one with [rho < 0], both
    on the empty portfolio, where neither [normInv] nor [normCDF] is called,
    and a call with [iterations = 0] all complete without an
    [InvalidParameter] failure. *)
Lemma invalid_parameters_not_rejected :
  (1 >= 1 /\
   runVasicekSimulation logistic_cdf logistic_quantile []
     2 1 1 "Baseline Scenario" sample_world <> Throw InvalidParameter) /\
  (-0.5 < 0 /\
   runVasicekSimulation logistic_cdf logistic_quantile []
     2 (-0.5) 1 "Baseline Scenario" sample_world <> Throw InvalidParameter) /\
  (0 <= 0 /\
   runVasicekSimulation logistic_cdf logistic_quantile sample_loans
     0 0.2 1 "Baseline Scenario" sample_world <> Throw InvalidParameter).
Proof.
  split; [|split]; (split; [lra|]).
  - rewrite runVasicekSimulation_eq. cbn [probits]. discriminate.
  - rewrite runVasicekSimulation_eq. cbn [probits]. discriminate.
  - destruct (runVasicekSimulation_returns logistic_cdf logistic_quantile
                sample_loans 0 0.2 1 "Baseline Scenario" sample_world
                sample_loans_defined) as [ps [_ ->]].
    discriminate.
Qed.

(** What the call with [rho = 1] on the empty portfolio returns: one loss
    of 0 per iteration. *)
Example rho_one_returns :
  exists r w',
    runVasicekSimulation logistic_cdf logistic_quantile []
      2 1 1 "Baseline Scenario" sample_world = Normal (r, w') /\
    losses r = [0; 0].
Proof.
  rewrite runVasicekSimulation_eq. cbn [probits].
  eexists. eexists. split; [reflexivity|].
  unfold result_of. cbn [losses]. rewrite trip_count_IZR.
  change (Z.to_nat 2) with 2%nat. cbn [raw_losses].
  unfold scenarioLoss. cbn [fold_left Array_sort sort_insert].
  destruct (Rgt_dec (0 - 0) 0) as [Hgt|_]; [lra|reflexivity].
Qed.

(** The end-to-end scenario of the specification: three loans with EAD
    1000, 2000 and 3000, LGD 0.6 and PD 0.01, 0.05 and 0.10 have the
    un-stressed expected loss 246. *)
Example expected_loss_sample : expected_loss sample_loans = 246.
Proof. unfold expected_loss, sample_loans, Rsum. cbn. lra. Qed.

(** One iteration with [rho = 0] on that portfolio yields the single loss
    246. *)
Example end_to_end_scenario :
  exists r w',
    runVasicekSimulation logistic_cdf logistic_quantile sample_loans 1 0 1
      "Baseline Scenario" sample_world = Normal (r, w') /\
    losses r = [246].
Proof.
  rewrite runVasicekSimulation_eq.
  destruct (probits_contract logistic_cdf logistic_quantile sample_loans
              logistic_contract sample_loans_pd) as [ps [-> HF]].
  eexists. eexists. split; [reflexivity|].
  pose proof (result_losses_length logistic_cdf ps 1 0 1 "Baseline Scenario"
                sample_world) as Hlen.
  pose proof (result_of_rho_zero logistic_cdf sample_loans ps 1 1
                "Baseline Scenario" sample_world HF) as Hall.
  rewrite trip_count_IZR in Hlen. rewrite expected_loss_sample in Hall.
  destruct (losses _) as [|x [|y xs]]; try discriminate.
  inversion Hall; subst. reflexivity.
Qed.

(** ** The statements at concrete inputs *)

Lemma generateMockLoans_portfolio_witness :
  (0 < 2)%Z /\ uniform_source sample_world /\
  exists loans w',
    generateMockLoans 2 sample_world = Normal (loans, w') /\
    List.length loans = 2%nat /\
    map id loans = map INR (seq 0 2) /\
    NoDup (map id loans) /\
    Forall well_formed_mock loans.
Proof.
  split; [lia|]. split; [exact sample_world_uniform|].
  apply (generateMockLoans_portfolio 2 sample_world);
    [lia|exact sample_world_uniform].
Defined.

Lemma trainPDModel_gradient_descent_witness :
  sample_loans <> [] /\
  exists out,
    trainPDModel sample_loans sample_world = Normal (out, sample_world) /\
    map pd_base out
    = map (fun loan =>
             sigmoid (fst (spec_fit sample_loans)
                      + snd (spec_fit sample_loans) * prior_late_payments loan))
          sample_loans.
Proof.
  split; [discriminate|].
  apply (trainPDModel_gradient_descent sample_loans sample_world). discriminate.
Defined.

Lemma trainPDModel_pd_open_unit_witness :
  sample_loans <> [] /\
  exists out,
    trainPDModel sample_loans sample_world = Normal (out, sample_world) /\
    out <> [] /\
    Forall (fun loan => 0 < pd_base loan < 1) out.
Proof.
  split; [discriminate|].
  apply (trainPDModel_pd_open_unit sample_loans sample_world). discriminate.
Defined.

Lemma trainPDModel_frame_witness :
  exists out,
    trainPDModel sample_loans sample_world = Normal (out, sample_world) /\
    List.length out = 3%nat /\
    forall (i : nat) (l : Loan),
      nth_error sample_loans i = Some l ->
      exists l',
        nth_error out i = Some l' /\
        id l' = id l /\ EAD l' = EAD l /\ LGD l' = LGD l /\
        prior_late_payments l' = prior_late_payments l /\
        defaulted l' = defaulted l.
Proof. exact (trainPDModel_frame sample_loans sample_world). Defined.

Lemma trainPDModel_pd_by_feature_witness :
  exists out,
    trainPDModel (sample_loans ++ sample_loans) sample_world
    = Normal (out, sample_world) /\
    forall l1 l2,
      In l1 out -> In l2 out ->
      prior_late_payments l1 = prior_late_payments l2 ->
      pd_base l1 = pd_base l2.
Proof.
  exact (trainPDModel_pd_by_feature (sample_loans ++ sample_loans)
                                    sample_world).
Defined.

Lemma runVasicekSimulation_summary_witness :
  (0 < 200)%Z /\ 0 <= 0.2 < 1 /\ 0 <= 2.5 /\ uniform_source sample_world /\
  probit_defined logistic_quantile sample_loans /\
  exists r w',
    runVasicekSimulation logistic_cdf logistic_quantile sample_loans 200
      0.2 2.5 "Severe Downturn" sample_world = Normal (r, w') /\
    List.length (losses r) = 200%nat /\
    StronglySorted Rle (losses r) /\
    (exists v, var99 r = Some v /\
       nth_error (losses r) (Z.to_nat (Math_floor (200 * 0.99))) = Some v) /\
    meanEL r = Rsum (losses r) / 200 /\
    meanEL r = mean (losses r).
Proof.
  split; [lia|]. split; [lra|]. split; [lra|].
  split; [exact sample_world_uniform|]. split; [exact sample_loans_defined|].
  apply (runVasicekSimulation_summary logistic_cdf logistic_quantile
           sample_loans 200 0.2 2.5 "Severe Downturn" sample_world);
    [lia|lra|lra|exact sample_world_uniform|exact sample_loans_defined].
Defined.

Lemma runVasicekSimulation_rho_zero_witness :
  quantile_contract logistic_cdf logistic_quantile /\
  pd_in_unit sample_loans /\
  uniform_source sample_world /\
  0 <= 2.5 /\
  exists r w',
    runVasicekSimulation logistic_cdf logistic_quantile sample_loans 1 0
      2.5 "Severe Downturn" sample_world = Normal (r, w') /\
    List.length (losses r) = trip_count 1 /\
    Forall (fun loss => loss = expected_loss sample_loans) (losses r).
Proof.
  split; [exact logistic_contract|]. split; [exact sample_loans_pd|].
  split; [exact sample_world_uniform|]. split; [lra|].
  apply (runVasicekSimulation_rho_zero logistic_cdf logistic_quantile
           sample_loans 1 2.5 "Severe Downturn" sample_world);
    [exact logistic_contract|exact sample_loans_pd
    |exact sample_world_uniform|lra].
Defined.

Lemma runVasicekSimulation_unchecked_witness :
  probit_defined logistic_quantile sample_loans /\
  exists r w',
    runVasicekSimulation logistic_cdf logistic_quantile sample_loans (-3)
      1.5 1 "Baseline Scenario" sample_world = Normal (r, w') /\
    List.length (losses r) = trip_count (-3) /\
    (-3 <= 0 -> losses r = [] /\ var99 r = None).
Proof.
  split; [exact sample_loans_defined|].
  apply (runVasicekSimulation_unchecked logistic_cdf logistic_quantile
           sample_loans (-3) 1.5 1 "Baseline Scenario" sample_world).
  exact sample_loans_defined.
Defined.

Lemma runVasicekSimulation_deterministic_witness :
  match runVasicekSimulation logistic_cdf logistic_quantile sample_loans 2
          0.2 1 "Baseline Scenario" sample_world,
        runVasicekSimulation logistic_cdf logistic_quantile sample_loans 2
          0.2 1 "Baseline Scenario" replay_world with
  | Normal (r1, _), Normal (r2, _) =>
      losses r1 = losses r2 /\ meanEL r1 = meanEL r2 /\ var99 r1 = var99 r2
  | Throw e1, Throw e2 => e1 = e2
  | _, _ => False
  end.
Proof.
  apply (runVasicekSimulation_deterministic logistic_cdf logistic_quantile
           sample_loans 2 0.2 1 "Baseline Scenario" sample_world replay_world).
  exact replay_world_agrees.
Defined.

(** * Further properties of the code *)

(** ** Loop bounds that are not integers *)

Lemma trip_count_ceiling (bound : R) :
  0 < bound ->
  INR (trip_count bound) - 1 < bound <= INR (trip_count bound).
Proof.
  intros Hb.
  assert (Hpos : (0 < trip_count bound)%nat) by (apply trip_count_guard; cbn; lra).
  split.
  - assert (Hlt : (trip_count bound - 1 < trip_count bound)%nat) by lia.
    apply trip_count_guard in Hlt.
    rewrite minus_INR in Hlt by lia. cbn in Hlt. lra.
  - destruct (Rle_lt_dec bound (INR (trip_count bound))) as [Hle|Hgt];
      [exact Hle|].
    apply trip_count_guard in Hgt. lia.
Qed.

Lemma trip_count_monotone (a b : R) :
  a <= b -> (trip_count a <= trip_count b)%nat.
Proof.
  intros Hab.
  destruct (Nat.le_gt_cases (trip_count a) (trip_count b)) as [Hle|Hgt];
    [exact Hle|].
  apply trip_count_guard in Hgt.
  assert (Hb : INR (trip_count b) < b) by lra.
  apply trip_count_guard in Hb. lia.
Qed.

(** ** More on the portfolio generator *)

(** X1. [generateMockLoans] never throws and never reads the clock.  It
    draws three numbers per loan.  A count that is zero or negative gives
    the empty portfolio; a positive count that is not an integer is rounded
    up. *)
Theorem generateMockLoans_count (count : R) (w : World) :
  exists loans,
    generateMockLoans count w
    = Normal (loans, advance (3 * List.length loans) w) /\
    (count <= 0 -> loans = []) /\
    (0 < count ->
     INR (List.length loans) - 1 < count <= INR (List.length loans)).
Proof.
  rewrite generateMockLoans_eq.
  exists (mock_loans (Math_random_seq w) (drawn w) 0 (trip_count count)).
  rewrite mock_loans_length. split; [reflexivity|]. split.
  - intros Hle. rewrite (trip_count_nonpositive count Hle). reflexivity.
  - apply trip_count_ceiling.
Qed.

Lemma mock_loan_lateness (rs : nat -> R) (d i : nat) :
  (forall k, 0 <= rs k < 1) ->
  (defaulted (mock_loan rs d i) = true ->
   2 <= prior_late_payments (mock_loan rs d i)) /\
  (4 <= prior_late_payments (mock_loan rs d i) ->
   defaulted (mock_loan rs d i) = true).
Proof.
  intros Hrs. unfold mock_loan.
  cbn [prior_late_payments defaulted Nat.add].
  pose proof (Hrs (S (S d))) as Hu.
  set (k := Math_floor (rs (S d) * 6)).
  split.
  - intros Hdef. apply gtb_true in Hdef.
    destruct (Z_le_gt_dec k 1) as [Hk|Hk].
    + apply IZR_le in Hk. lra.
    + apply IZR_le. lia.
  - intros Hk. apply gtb_true. lra.
Qed.

(** X2. With uniform draws, a generated loan is marked as defaulted only if
    it has at least 2 prior late payments, and always if it has at least
    4. *)
Theorem generateMockLoans_default_by_lateness (count : R) (w : World) :
  uniform_source w ->
  exists loans w',
    generateMockLoans count w = Normal (loans, w') /\
    Forall (fun l =>
              (defaulted l = true -> 2 <= prior_late_payments l) /\
              (4 <= prior_late_payments l -> defaulted l = true))
           loans.
Proof.
  intros Hw. rewrite generateMockLoans_eq.
  eexists. eexists. split; [reflexivity|].
  apply mock_loans_Forall. intros d i. now apply mock_loan_lateness.
Qed.

Lemma mock_loans_firstn (rs : nat -> R) (n : nat) :
  forall m d i,
    (n <= m)%nat ->
    mock_loans rs d i n = firstn n (mock_loans rs d i m).
Proof.
  induction n as [|n IH]; intros m d i Hnm; [reflexivity|].
  destruct m as [|m]; [lia|].
  cbn [mock_loans firstn]. f_equal. apply IH. lia.
Qed.

(** X3. From the same world, a larger portfolio extends a smaller one: the
    loans generated for [count1] are the first loans generated for any
    [count2 >= count1]. *)
Theorem generateMockLoans_prefix (count1 count2 : R) (w : World) :
  count1 <= count2 ->
  exists loans1 loans2 w1 w2,
    generateMockLoans count1 w = Normal (loans1, w1) /\
    generateMockLoans count2 w = Normal (loans2, w2) /\
    loans1 = firstn (List.length loans1) loans2.
Proof.
  intros Hle. rewrite !generateMockLoans_eq.
  do 4 eexists. split; [reflexivity|]. split; [reflexivity|].
  rewrite mock_loans_length.
  apply mock_loans_firstn. now apply trip_count_monotone.
Qed.

(** ** More on the PD model trainer *)

Lemma for_pure_ext {T : Type} (f g : T -> T) (n : nat) :
  (forall s, f s = g s) -> forall s, for_pure n f s = for_pure n g s.
Proof.
  intros Hfg. induction n as [|n IH]; intros s; [reflexivity|].
  cbn [for_pure]. now rewrite Hfg, IH.
Qed.

Lemma for_pure_invariant {T : Type} (P : nat -> T -> Prop) (f : T -> T) :
  (forall k s, P k s -> P (S k) (f s)) ->
  forall n k s, P k s -> P (k + n)%nat (for_pure n f s).
Proof.
  intros Hstep. induction n as [|n IH]; intros k s Hs.
  - now rewrite Nat.add_0_r.
  - cbn [for_pure]. replace (k + S n)%nat with (S k + n)%nat by lia.
    apply IH. now apply Hstep.
Qed.

(** The gradient reads the training pairs of the loans and nothing else. *)
Lemma spec_gradient_features (loans loans' : list Loan) (params : R * R) :
  map training_pair loans = map training_pair loans' ->
  spec_gradient loans params = spec_gradient loans' params.
Proof.
  intros Hpairs. unfold spec_gradient.
  set (g1 := fun xy : R * bool =>
               sigmoid (fst params + snd params * fst xy)
               - (if snd xy then 1 else 0)).
  set (g2 := fun xy : R * bool => g1 xy * fst xy).
  assert (H1 : forall ls,
    map (fun loan =>
           sigmoid (fst params + snd params * prior_late_payments loan)
           - label loan) ls = map g1 (map training_pair ls)).
  { intros ls. rewrite map_map. reflexivity. }
  assert (H2 : forall ls,
    map (fun loan =>
           (sigmoid (fst params + snd params * prior_late_payments loan)
            - label loan) * prior_late_payments loan) ls
    = map g2 (map training_pair ls)).
  { intros ls. rewrite map_map. reflexivity. }
  rewrite !H1, !H2, Hpairs. reflexivity.
Qed.

Lemma fit_features (loans loans' : list Loan) :
  map training_pair loans = map training_pair loans' ->
  fit loans = fit loans'.
Proof.
  intros Hpairs. unfold fit. apply for_pure_ext. intros p.
  rewrite !epoch_spec_epoch. unfold spec_epoch.
  now rewrite (spec_gradient_features loans loans' p Hpairs).
Qed.

Lemma apply_model_pairs (intercept beta : R) (loans : list Loan) :
  map training_pair (map (apply_model intercept beta) loans)
  = map training_pair loans.
Proof. rewrite map_map. reflexivity. Qed.

(** X4. Training reads [prior_late_payments] and [defaulted] only: two
    portfolios that agree on these two fields, position by position, get
    the same PDs, whatever their ids, EAD, LGD and incoming [pd_base]
    are. *)
Theorem trainPDModel_reads_training_pairs (loans loans' : list Loan)
    (w : World) :
  map training_pair loans = map training_pair loans' ->
  exists out out',
    trainPDModel loans w = Normal (out, w) /\
    trainPDModel loans' w = Normal (out', w) /\
    map pd_base out = map pd_base out'.
Proof.
  intros Hpairs. rewrite !trainPDModel_eq.
  rewrite <- (fit_features loans loans' Hpairs).
  do 2 eexists. split; [reflexivity|]. split; [reflexivity|].
  set (i := fst (fit loans)). set (b := snd (fit loans)).
  assert (Hpd : forall ls,
    map pd_base (map (apply_model i b) ls)
    = map (fun xy : R * bool => 1 / (1 + exp (- (i + b * fst xy))))
          (map training_pair ls)).
  { intros ls. rewrite !map_map. reflexivity. }
  now rewrite !Hpd, Hpairs.
Qed.

(** X5. Training a trained portfolio again changes nothing:
    [trainPDModel] applied to its own result returns that result. *)
Theorem trainPDModel_retrain (loans : list Loan) (w : World) :
  exists out,
    trainPDModel loans w = Normal (out, w) /\
    trainPDModel out w = Normal (out, w).
Proof.
  rewrite trainPDModel_eq. eexists. split; [reflexivity|].
  rewrite trainPDModel_eq.
  rewrite (fit_features _ loans (apply_model_pairs _ _ loans)).
  rewrite map_map. reflexivity.
Qed.

Lemma logistic_monotone (z1 z2 : R) :
  z1 <= z2 -> 1 / (1 + exp (- z1)) <= 1 / (1 + exp (- z2)).
Proof.
  intros Hz.
  assert (He : exp (- z2) <= exp (- z1)).
  { destruct Hz as [Hlt|Heq].
    - left. apply exp_increasing. lra.
    - subst. lra. }
  pose proof (exp_pos (- z1)). pose proof (exp_pos (- z2)).
  unfold Rdiv. rewrite !Rmult_1_l.
  apply Rinv_le_contravar; lra.
Qed.

(** X6. The fitted PD is monotone in [prior_late_payments]: when the fitted
    [beta] is not negative, a loan with more prior late payments never has
    a smaller PD; when it is not positive, never a larger one. *)
Theorem trainPDModel_monotone (loans : list Loan) (w : World) :
  exists out,
    trainPDModel loans w = Normal (out, w) /\
    (0 <= snd (fit loans) ->
     forall l1 l2, In l1 out -> In l2 out ->
       prior_late_payments l1 <= prior_late_payments l2 ->
       pd_base l1 <= pd_base l2) /\
    (snd (fit loans) <= 0 ->
     forall l1 l2, In l1 out -> In l2 out ->
       prior_late_payments l1 <= prior_late_payments l2 ->
       pd_base l2 <= pd_base l1).
Proof.
  rewrite trainPDModel_eq. eexists. split; [reflexivity|].
  split; intros Hb l1 l2 H1 H2 Hx;
    apply in_map_iff in H1; destruct H1 as [a [<- _]];
    apply in_map_iff in H2; destruct H2 as [b [<- _]];
    cbn [apply_model pd_base prior_late_payments] in *;
    apply logistic_monotone; nra.
Qed.

Lemma Rsum_perm (xs ys : list R) : Permutation xs ys -> Rsum xs = Rsum ys.
Proof.
  induction 1 as [|x xs ys _ IH|x y xs|xs ys zs _ IH1 _ IH2];
    cbn [Rsum fold_right] in *; unfold Rsum in *; lra.
Qed.

Lemma fit_perm (loans loans' : list Loan) :
  Permutation loans loans' -> fit loans = fit loans'.
Proof.
  intros Hperm. unfold fit. apply for_pure_ext. intros p.
  rewrite !epoch_spec_epoch. unfold spec_epoch, spec_gradient, mean.
  rewrite !length_map, (Permutation_length Hperm).
  rewrite (Rsum_perm _ _ (Permutation_map
             (fun loan =>
                sigmoid (fst p + snd p * prior_late_payments loan)
                - label loan) Hperm)).
  rewrite (Rsum_perm _ _ (Permutation_map
             (fun loan =>
                (sigmoid (fst p + snd p * prior_late_payments loan)
                 - label loan) * prior_late_payments loan) Hperm)).
  reflexivity.
Qed.

(** X7. The order of the loans does not matter to the fit (on real
    numbers): a rearranged portfolio gets the same parameters, and its
    trained loans are the same loans rearranged. *)
Theorem trainPDModel_order_irrelevant (loans loans' : list Loan) (w : World) :
  Permutation loans loans' ->
  exists out out',
    trainPDModel loans w = Normal (out, w) /\
    trainPDModel loans' w = Normal (out', w) /\
    fit loans = fit loans' /\
    Permutation out out'.
Proof.
  intros Hperm. rewrite !trainPDModel_eq.
  do 2 eexists. split; [reflexivity|]. split; [reflexivity|].
  split; [now apply fit_perm|].
  rewrite (fit_perm loans loans' Hperm). now apply Permutation_map.
Qed.

Lemma Rsum_bounds (c : R) (xs : list R) :
  (forall x, In x xs -> - c <= x <= c) ->
  - c * INR (List.length xs) <= Rsum xs <= c * INR (List.length xs).
Proof.
  induction xs as [|x xs IH]; intros Hxs.
  - cbn. lra.
  - cbn [List.length Rsum fold_right]. rewrite S_INR.
    pose proof (Hxs x (or_introl eq_refl)) as Hx.
    assert (Hrest : forall y, In y xs -> - c <= y <= c)
      by (intros y Hy; apply Hxs; now right).
    specialize (IH Hrest). unfold Rsum in IH. lra.
Qed.

Lemma mean_bounds (c : R) (xs : list R) :
  xs <> [] ->
  (forall x, In x xs -> - c <= x <= c) ->
  - c <= mean xs <= c.
Proof.
  intros Hne Hxs. unfold mean.
  pose proof (Rsum_bounds c xs Hxs) as [Hlo Hhi].
  assert (Hn : 0 < INR (List.length xs)).
  { destruct xs as [|x xs]; [contradiction|].
    cbn [List.length]. rewrite S_INR. pose proof (pos_INR (List.length xs)). lra. }
  set (n := INR (List.length xs)) in *.
  assert (Hq : 0 < / n) by now apply Rinv_0_lt_compat.
  assert (Hnq : n * / n = 1) by (apply Rinv_r; lra).
  unfold Rdiv. split; nra.
Qed.

Lemma error_bounds (intercept beta : R) (loan : Loan) :
  -1 <= sigmoid (intercept + beta * prior_late_payments loan) - label loan
     <= 1.
Proof.
  pose proof (sigmoid_range (intercept + beta * prior_late_payments loan))
    as Hs.
  unfold sigmoid, label. destruct (defaulted loan); lra.
Qed.

(** One epoch moves the intercept by at most 0.01, and beta by at most 0.01
    times the largest feature. *)
Lemma spec_epoch_step (loans : list Loan) (B : R) (params : R * R) :
  loans <> [] ->
  (forall l, In l loans -> - B <= prior_late_payments l <= B) ->
  fst params - 0.01 <= fst (spec_epoch loans params) <= fst params + 0.01 /\
  snd params - 0.01 * B <= snd (spec_epoch loans params)
    <= snd params + 0.01 * B.
Proof.
  intros Hne HB. unfold spec_epoch, spec_gradient. cbn [fst snd].
  set (e1 := map _ loans). set (e2 := map _ loans).
  assert (H1 : -1 <= mean e1 <= 1).
  { apply mean_bounds.
    - intros Hnil. apply map_eq_nil in Hnil. contradiction.
    - intros x Hx. apply in_map_iff in Hx. destruct Hx as [l [<- _]].
      pose proof (error_bounds (fst params) (snd params) l). lra. }
  assert (H2 : - B <= mean e2 <= B).
  { apply mean_bounds.
    - intros Hnil. apply map_eq_nil in Hnil. contradiction.
    - intros x Hx. apply in_map_iff in Hx. destruct Hx as [l [<- Hl]].
      pose proof (error_bounds (fst params) (snd params) l) as He.
      pose proof (HB l Hl) as Hx.
      set (e := sigmoid _ - label l) in *.
      set (x := prior_late_payments l) in *.
      split; nra. }
  lra.
Qed.

(** X8. Training cannot move the parameters far (a statement on real
    numbers): for a non-empty portfolio the fitted intercept lies in
    [[-6, 4]], and when every [prior_late_payments] lies in [[-B, B]] the
    fitted beta lies within [5 * B] of its initial value 0.5. *)
Theorem trainPDModel_parameters_bounded (loans : list Loan) (B : R) :
  loans <> [] ->
  (forall l, In l loans -> - B <= prior_late_payments l <= B) ->
  -6 <= fst (fit loans) <= 4 /\
  0.5 - 5 * B <= snd (fit loans) <= 0.5 + 5 * B.
Proof.
  intros Hne HB. unfold fit.
  pose proof (for_pure_invariant
    (fun k p =>
       -1 - 0.01 * INR k <= fst p <= -1 + 0.01 * INR k /\
       0.5 - 0.01 * B * INR k <= snd p <= 0.5 + 0.01 * B * INR k)
    (epoch loans)) as Hinv.
  assert (Hstep : forall k p,
    (-1 - 0.01 * INR k <= fst p <= -1 + 0.01 * INR k /\
     0.5 - 0.01 * B * INR k <= snd p <= 0.5 + 0.01 * B * INR k) ->
    -1 - 0.01 * INR (S k) <= fst (epoch loans p) <= -1 + 0.01 * INR (S k) /\
    0.5 - 0.01 * B * INR (S k) <= snd (epoch loans p)
      <= 0.5 + 0.01 * B * INR (S k)).
  { intros k p [Hi Hb]. rewrite epoch_spec_epoch, S_INR.
    pose proof (spec_epoch_step loans B p Hne HB) as [Hi' Hb']. lra. }
  specialize (Hinv Hstep epochs 0%nat (-1.0, 0.5)).
  cbn [fst snd Nat.add INR] in Hinv.
  assert (H0 : -1 - 0.01 * 0 <= -1.0 <= -1 + 0.01 * 0 /\
               0.5 - 0.01 * B * 0 <= 0.5 <= 0.5 + 0.01 * B * 0) by lra.
  specialize (Hinv H0).
  assert (H500 : INR epochs = 500).
  { unfold epochs. rewrite INR_IZR_INZ. f_equal. }
  rewrite H500 in Hinv. lra.
Qed.

(** ** More on the Monte Carlo engine *)

Lemma sorted_nth (xs : list R) :
  StronglySorted Rle xs ->
  forall i j a b,
    (i <= j)%nat -> nth_error xs i = Some a -> nth_error xs j = Some b ->
    a <= b.
Proof.
  induction 1 as [|x xs Hs IH Hall]; intros i j a b Hij Ha Hb.
  - destruct i; discriminate.
  - destruct i as [|i], j as [|j]; cbn [nth_error] in *.
    + injection Ha as <-. injection Hb as <-. lra.
    + injection Ha as <-. apply nth_error_In in Hb.
      rewrite Forall_forall in Hall. now apply Hall.
    + lia.
    + apply (IH i j); [lia|assumption|assumption].
Qed.

Lemma Rsum_between (lo hi : R) (xs : list R) :
  (forall x, In x xs -> lo <= x <= hi) ->
  lo * INR (List.length xs) <= Rsum xs <= hi * INR (List.length xs).
Proof.
  induction xs as [|x xs IH]; intros Hxs.
  - cbn. lra.
  - cbn [List.length Rsum fold_right]. rewrite S_INR.
    pose proof (Hxs x (or_introl eq_refl)) as Hx.
    assert (Hrest : forall y, In y xs -> lo <= y <= hi)
      by (intros y Hy; apply Hxs; now right).
    specialize (IH Hrest). unfold Rsum in IH. lra.
Qed.

Lemma all_equal_repeat (c : R) (xs : list R) :
  Forall (fun x => x = c) xs -> xs = repeat c (List.length xs).
Proof.
  induction 1 as [|x xs Hx _ IH]; [reflexivity|].
  cbn [List.length repeat]. now rewrite Hx, <- IH.
Qed.

Lemma shock_guarded (u1 : R) :
  0 <= u1 < 1 ->
  0 < guarded u1 < 1 /\ 0 < -2.0 * ln (guarded u1).
Proof.
  intros Hu.
  assert (Hg : 0 < guarded u1 < 1).
  { unfold guarded, strict_eqb. destruct (Req_dec_T u1 0); lra. }
  split; [exact Hg|].
  assert (Hln : ln (guarded u1) < ln 1) by (apply ln_increasing; lra).
  rewrite ln_1 in Hln. lra.
Qed.

Section EngineProperties.

Variable normCDF : R -> R.
Variable normInv : R -> completion R.

Lemma probits_throw (loans : list Loan) (e : Failure) :
  probits normInv loans = Throw e <->
  exists before l after,
    loans = before ++ l :: after /\
    probit_defined normInv before /\
    normInv (pd_base l) = Throw e.
Proof.
  induction loans as [|l loans IH]; cbn [probits].
  - split; [discriminate|].
    intros [before [l [after [Heq _]]]]. destruct before; discriminate.
  - destruct (normInv (pd_base l)) as [q|e0] eqn:Hl.
    + assert (Hshift :
        (exists before l' after,
           l :: loans = before ++ l' :: after /\
           probit_defined normInv before /\
           normInv (pd_base l') = Throw e) <->
        (exists before l' after,
           loans = before ++ l' :: after /\
           probit_defined normInv before /\
           normInv (pd_base l') = Throw e)).
      { split.
        - intros [before [l' [after [Heq [Hdef Hthrow]]]]].
          destruct before as [|b before]; cbn [app] in Heq;
            injection Heq as Hb Hrest.
          + subst l'. congruence.
          + exists before, l', after. split; [exact Hrest|].
            split; [|exact Hthrow]. now inversion Hdef.
        - intros [before [l' [after [Heq [Hdef Hthrow]]]]].
          exists (l :: before), l', after. split; [now rewrite Heq|].
          split; [|exact Hthrow]. constructor; [now exists q|exact Hdef]. }
      rewrite Hshift, <- IH.
      destruct (probits normInv loans) as [ps|e1]; [|reflexivity].
      split; discriminate.
    + split.
      * intros Heq. injection Heq as ->.
        exists [], l, loans. split; [reflexivity|].
        split; [constructor|exact Hl].
      * intros [before [l' [after [Heq [Hdef Hthrow]]]]].
        destruct before as [|b before]; cbn [app] in Heq;
          injection Heq as Hb Hrest.
        -- subst l'. congruence.
        -- subst b. inversion Hdef as [|? ? [q Hq] _]. congruence.
Qed.

(** X9. [runVasicekSimulation] throws exactly when [normInv] rejects the PD
    of some loan, and then it throws what [normInv] throws for the first
    such loan of the portfolio. *)
Theorem runVasicekSimulation_throws (loans : list Loan) (iterations rho
    stressFactor : R) (scenarioName : string) (w : World) (e : Failure) :
  runVasicekSimulation normCDF normInv loans iterations rho stressFactor
                       scenarioName w = Throw e <->
  exists before l after,
    loans = before ++ l :: after /\
    probit_defined normInv before /\
    normInv (pd_base l) = Throw e.
Proof.
  rewrite runVasicekSimulation_eq, <- probits_throw.
  destruct (probits normInv loans) as [ps|e'].
  - split; discriminate.
  - split; intros Heq; injection Heq as ->; reflexivity.
Qed.

End EngineProperties.

Section EngineResults.

Variable normCDF : R -> R.
Variable normInv : R -> completion R.

Lemma raw_losses_map (a b c : R) (ps : list LoanParam) (rs : nat -> R)
    (n : nat) :
  forall d,
    raw_losses normCDF a b c ps rs d n
    = map (fun k =>
             scenarioLoss normCDF
               (a * b * shock (rs (d + 2 * k)%nat) (rs (1 + (d + 2 * k))%nat))
               c ps)
          (seq 0 n).
Proof.
  induction n as [|n IH]; intros d; [reflexivity|].
  cbn [raw_losses seq map]. rewrite Nat.mul_0_r, Nat.add_0_r. f_equal.
  rewrite IH, <- seq_shift, map_map. apply map_ext. intros k.
  replace (2 + d + 2 * k)%nat with (d + 2 * S k)%nat by lia. reflexivity.
Qed.

(** The index of [var99] falls inside the array whenever [iterations] is
    positive. *)
Lemma var_index_defined (iterations : R) :
  0 < iterations ->
  (0 <= Math_floor (iterations * 0.99))%Z /\
  (Z.to_nat (Math_floor (iterations * 0.99)) < trip_count iterations)%nat.
Proof.
  intros Hpos.
  destruct (Math_floor_bounds (iterations * 0.99)) as [Hle Hlt].
  destruct (trip_count_ceiling iterations Hpos) as [_ Hceil].
  set (f := Math_floor (iterations * 0.99)) in *.
  assert (Hf : (0 <= f)%Z).
  { assert (H1 : (-1 < f)%Z) by (apply lt_IZR; lra). lia. }
  split; [exact Hf|].
  apply INR_lt. rewrite INR_IZR_INZ, Z2Nat.id by exact Hf. lra.
Qed.

Lemma result_var99 (ps : list LoanParam) (iterations rho stressFactor : R)
    (scenarioName : string) (w : World) :
  0 < iterations ->
  exists v,
    var99 (result_of normCDF ps iterations rho stressFactor scenarioName w)
    = Some v /\
    nth_error
      (losses (result_of normCDF ps iterations rho stressFactor
                         scenarioName w))
      (Z.to_nat (Math_floor (iterations * 0.99))) = Some v.
Proof.
  intros Hpos. destruct (var_index_defined iterations Hpos) as [Hlo Hhi].
  pose proof (result_losses_length normCDF ps iterations rho stressFactor
                scenarioName w) as Hlen.
  set (r := result_of normCDF ps iterations rho stressFactor scenarioName w)
    in *.
  destruct (nth_error (losses r) (Z.to_nat (Math_floor (iterations * 0.99))))
    as [v|] eqn:Hnth.
  - exists v. split; [|reflexivity].
    unfold r, result_of in *. cbn [var99 losses] in *. unfold Array_get.
    destruct (Z.ltb_spec (Math_floor (iterations * 0.99)) 0) as [Hneg|_];
      [lia|exact Hnth].
  - apply nth_error_None in Hnth. lia.
Qed.

(** X10. A call that returns has drawn exactly two numbers per loop round
    and read the clock exactly twice; [processingTime] is the second
    reading minus the first, and the scenario name and the stress factor
    come back as they were passed. *)
Theorem runVasicekSimulation_effects (loans : list Loan) (iterations rho
    factor : R) (name : string) (w : World) :
  probit_defined normInv loans ->
  exists r,
    runVasicekSimulation normCDF normInv loans iterations rho factor name w
    = Normal (r, tick (advance (2 * trip_count iterations) (tick w))) /\
    processingTime r
    = performance_clock w (S (ticks w)) - performance_clock w (ticks w) /\
    scenarioName r = name /\
    stressFactor r = factor.
Proof.
  intros Hdef. rewrite runVasicekSimulation_eq.
  destruct (probits_defined normInv loans Hdef) as [ps ->].
  eexists. split; [reflexivity|]. repeat split.
Qed.

(** X11. For parameters of the contract ([0 <= rho < 1], a non-negative
    stress factor, uniform draws), the returned [losses] are the losses of
    the iterations, rearranged: iteration [k] contributes the scenario loss
    for the shock computed from the draws number [2k] and [2k + 1] after
    the cursor. *)
Theorem runVasicekSimulation_losses_rearranged (loans : list Loan)
    (iterations rho stressFactor : R) (scenarioName : string) (w : World) :
  0 <= rho < 1 ->
  0 <= stressFactor ->
  uniform_source w ->
  probit_defined normInv loans ->
  exists ps r w',
    probits normInv loans = Normal ps /\
    runVasicekSimulation normCDF normInv loans iterations rho stressFactor
                         scenarioName w = Normal (r, w') /\
    Permutation (losses r)
      (map (fun k =>
              scenarioLoss normCDF
                (sqrt rho * sqrt stressFactor
                 * shock (Math_random_seq w (drawn w + 2 * k)%nat)
                         (Math_random_seq w (1 + (drawn w + 2 * k))%nat))
                (sqrt (1 - rho)) ps)
           (seq 0 (trip_count iterations))).
Proof.
  intros _ _ _ Hdef. rewrite runVasicekSimulation_eq.
  destruct (probits_defined normInv loans Hdef) as [ps ->].
  exists ps. eexists. eexists. split; [reflexivity|].
  split; [reflexivity|].
  unfold result_of. cbn [losses]. rewrite <- raw_losses_map.
  apply Array_sort_perm.
Qed.

(** X12. For a positive integer [N] and parameters of the contract
    ([0 <= rho < 1], a non-negative stress factor, uniform draws), [var99]
    is the loss at index [floor (N * 0.99)] of the ascending sequence, so
    no loss before that index is larger and no loss after it is smaller. *)
Theorem runVasicekSimulation_var99_quantile (loans : list Loan) (N : Z)
    (rho stressFactor : R) (scenarioName : string) (w : World) :
  (0 < N)%Z ->
  0 <= rho < 1 ->
  0 <= stressFactor ->
  uniform_source w ->
  probit_defined normInv loans ->
  exists r w' v,
    runVasicekSimulation normCDF normInv loans (IZR N) rho stressFactor
                         scenarioName w = Normal (r, w') /\
    var99 r = Some v /\
    In v (losses r) /\
    forall i x,
      nth_error (losses r) i = Some x ->
      ((i <= Z.to_nat (Math_floor (IZR N * 0.99)))%nat -> x <= v) /\
      ((Z.to_nat (Math_floor (IZR N * 0.99)) <= i)%nat -> v <= x).
Proof.
  intros HN _ _ _ Hdef. rewrite runVasicekSimulation_eq.
  destruct (probits_defined normInv loans Hdef) as [ps ->].
  assert (Hpos : 0 < IZR N) by (apply IZR_lt; lia).
  destruct (result_var99 ps (IZR N) rho stressFactor scenarioName w Hpos)
    as [v [Hvar Hnth]].
  eexists. eexists. exists v. split; [reflexivity|].
  split; [exact Hvar|]. split; [now apply nth_error_In in Hnth|].
  assert (Hsorted : StronglySorted Rle
            (losses (result_of normCDF ps (IZR N) rho stressFactor
                               scenarioName w)))
    by apply Array_sort_ascending.
  intros i x Hx. split; intros Hi.
  - exact (sorted_nth _ Hsorted _ _ _ _ Hi Hx Hnth).
  - exact (sorted_nth _ Hsorted _ _ _ _ Hi Hnth Hx).
Qed.


(** X14. With at most 100 iterations and parameters of the contract
    ([0 <= rho < 1], a non-negative stress factor, uniform draws) the index
    [floor (N * 0.99)] is the last one, so [var99] is simply the largest
    simulated loss. *)
Theorem runVasicekSimulation_var99_small_run (loans : list Loan) (N : Z)
    (rho stressFactor : R) (scenarioName : string) (w : World) :
  (0 < N <= 100)%Z ->
  0 <= rho < 1 ->
  0 <= stressFactor ->
  uniform_source w ->
  probit_defined normInv loans ->
  exists r w' v,
    runVasicekSimulation normCDF normInv loans (IZR N) rho stressFactor
                         scenarioName w = Normal (r, w') /\
    var99 r = Some v /\
    In v (losses r) /\
    Forall (fun x => x <= v) (losses r).
Proof.
  intros HN _ _ _ Hdef. rewrite runVasicekSimulation_eq.
  destruct (probits_defined normInv loans Hdef) as [ps ->].
  assert (Hpos : 0 < IZR N) by (apply IZR_lt; lia).
  destruct (result_var99 ps (IZR N) rho stressFactor scenarioName w Hpos)
    as [v [Hvar Hnth]].
  eexists. eexists. exists v. split; [reflexivity|].
  split; [exact Hvar|]. split; [now apply nth_error_In in Hnth|].
  pose proof (result_losses_length normCDF ps (IZR N) rho stressFactor
                scenarioName w) as Hlen.
  rewrite trip_count_IZR in Hlen.
  assert (Hidx : Math_floor (IZR N * 0.99) = (N - 1)%Z).
  { rewrite var_index_exact. symmetry.
    apply (Z.div_unique (99 * N) 100 (N - 1) (100 - N)); lia. }
  rewrite Hidx in Hnth.
  assert (Hsorted : StronglySorted Rle
            (losses (result_of normCDF ps (IZR N) rho stressFactor
                               scenarioName w)))
    by apply Array_sort_ascending.
  apply Forall_forall. intros x Hx.
  apply In_nth_error in Hx. destruct Hx as [i Hi].
  assert (Hlt : (i < Z.to_nat N)%nat).
  { rewrite <- Hlen. apply nth_error_Some. congruence. }
  apply (sorted_nth _ Hsorted i (Z.to_nat (N - 1)) x v); [lia|exact Hi|exact Hnth].
Qed.

End EngineResults.

Section EngineBounds.

Variable normCDF : R -> R.
Variable normInv : R -> completion R.

Lemma raw_losses_Forall (P : R -> Prop) (a b c : R) (ps : list LoanParam)
    (rs : nat -> R) (n : nat) :
  (forall s, P (scenarioLoss normCDF s c ps)) ->
  forall d, Forall P (raw_losses normCDF a b c ps rs d n).
Proof.
  intros HP. induction n as [|n IH]; intros d; cbn [raw_losses];
    constructor; [apply HP|apply IH].
Qed.

Lemma result_losses_Forall (P : R -> Prop) (ps : list LoanParam)
    (iterations rho stressFactor : R) (scenarioName : string) (w : World) :
  (forall s, P (scenarioLoss normCDF s (sqrt (1 - rho)) ps)) ->
  Forall P (losses (result_of normCDF ps iterations rho stressFactor
                              scenarioName w)).
Proof.
  intros HP. unfold result_of. cbn [losses].
  eapply Permutation_Forall.
  - symmetry. apply Array_sort_perm.
  - now apply raw_losses_Forall.
Qed.

(** X15. On the empty portfolio no function of the statistics module is
    called and every iteration loses nothing: for a positive [iterations]
    the call returns one loss of 0 per loop round, [meanEL] 0 and [var99]
    0, whatever [rho] and the stress factor are. *)
Theorem runVasicekSimulation_empty_portfolio (iterations rho stressFactor : R)
    (scenarioName : string) (w : World) :
  0 < iterations ->
  exists r w',
    runVasicekSimulation normCDF normInv [] iterations rho stressFactor
                         scenarioName w = Normal (r, w') /\
    losses r = repeat 0 (trip_count iterations) /\
    meanEL r = 0 /\
    var99 r = Some 0.
Proof.
  intros Hpos. rewrite runVasicekSimulation_eq. cbn [probits].
  eexists. eexists. split; [reflexivity|].
  assert (Hzero : Forall (fun x => x = 0)
            (losses (result_of normCDF [] iterations rho stressFactor
                               scenarioName w))).
  { apply result_losses_Forall. intros s. reflexivity. }
  pose proof (result_losses_length normCDF [] iterations rho stressFactor
                scenarioName w) as Hlen.
  destruct (result_var99 normCDF [] iterations rho stressFactor scenarioName
              w Hpos) as [v [Hvar Hnth]].
  apply all_equal_repeat in Hzero as Hrep. rewrite Hlen in Hrep.
  split; [exact Hrep|]. split.
  - assert (Hsum : Array_sum
              (losses (result_of normCDF [] iterations rho stressFactor
                                 scenarioName w)) = 0).
    { rewrite Array_sum_Rsum.
      pose proof (Rsum_between 0 0 _
        (fun x Hx => match proj1 (Forall_forall _ _) Hzero x Hx with
                     | eq_refl => conj (Rle_refl x) (Rle_refl x)
                     end)) as Hb.
      lra. }
    unfold result_of in *. cbn [meanEL losses] in *. rewrite Hsum.
    unfold Rdiv. ring.
  - rewrite Hvar. f_equal. apply nth_error_In in Hnth.
    rewrite Forall_forall in Hzero. now apply Hzero.
Qed.

Lemma probits_exposures (loans : list Loan) (ps : list LoanParam) :
  probits normInv loans = Normal ps ->
  map exposure ps = map (fun l => EAD l * LGD l) loans.
Proof.
  revert ps. induction loans as [|l loans IH]; intros ps; cbn [probits].
  - intros Heq. injection Heq as <-. reflexivity.
  - destruct (normInv (pd_base l)) as [q|e]; [|discriminate].
    destruct (probits normInv loans) as [ps'|e]; [|discriminate].
    intros Heq. injection Heq as <-. cbn [map exposure].
    now rewrite (IH ps' eq_refl).
Qed.

Lemma scenarioLoss_bounds (s c : R) (ps : list LoanParam) :
  (forall x, 0 <= normCDF x <= 1) ->
  Forall (fun e => 0 <= e) (map exposure ps) ->
  0 <= scenarioLoss normCDF s c ps <= Rsum (map exposure ps).
Proof.
  intros Hcdf Hexp. unfold scenarioLoss.
  assert (Hacc : forall acc,
    acc <= fold_left
             (fun iterationLoss lp =>
                let score := (probitPd lp + s) / c in
                let pdStressed := normCDF score in
                iterationLoss + exposure lp * pdStressed) ps acc
        <= acc + Rsum (map exposure ps)).
  { induction ps as [|p ps IH]; intros acc;
      cbn [fold_left map Rsum fold_right].
    - lra.
    - inversion Hexp as [|? ? Hp Hrest]; subst.
      specialize (IH Hrest (acc + exposure p * normCDF ((probitPd p + s) / c))).
      pose proof (Hcdf ((probitPd p + s) / c)) as Hc.
      unfold Rsum in *. split; nra. }
  specialize (Hacc 0). lra.
Qed.

(** X16. When [normCDF] takes its values in [[0, 1]] and no loan has a
    negative [EAD * LGD], every simulated loss lies between 0 and the total
    exposure of the portfolio.  Stated for the parameters of the contract:
    [0 <= rho < 1], a non-negative stress factor, uniform draws. *)
Theorem runVasicekSimulation_losses_bounded (loans : list Loan)
    (iterations rho stressFactor : R) (scenarioName : string) (w : World) :
  (forall x, 0 <= normCDF x <= 1) ->
  Forall (fun l => 0 <= EAD l * LGD l) loans ->
  probit_defined normInv loans ->
  0 <= rho < 1 ->
  0 <= stressFactor ->
  uniform_source w ->
  exists r w',
    runVasicekSimulation normCDF normInv loans iterations rho stressFactor
                         scenarioName w = Normal (r, w') /\
    Forall (fun x => 0 <= x <= total_exposure loans) (losses r).
Proof.
  intros Hcdf Hexp Hdef _ _ _. rewrite runVasicekSimulation_eq.
  destruct (probits_defined normInv loans Hdef) as [ps Hps]. rewrite Hps.
  eexists. eexists. split; [reflexivity|].
  apply result_losses_Forall. intros s.
  unfold total_exposure. rewrite <- (probits_exposures loans ps Hps).
  apply scenarioLoss_bounds; [exact Hcdf|].
  rewrite (probits_exposures loans ps Hps).
  apply Forall_map. exact Hexp.
Qed.

End EngineBounds.

(** X17. The guard on the first draw keeps the Box-Muller transform inside
    the reals: for a draw in [[0, 1)] the argument of the logarithm lies
    strictly between 0 and 1 and the argument of the square root is
    positive; a draw of 0 gives the shock of a draw of [1e-9]; and the
    shock is at most that square root in absolute value. *)
Theorem box_muller_guard (u1 u2 : R) :
  0 <= u1 < 1 ->
  0 < guarded u1 < 1 /\
  0 < -2.0 * ln (guarded u1) /\
  shock 0 u2 = shock 1e-9 u2 /\
  Rabs (shock u1 u2) <= sqrt (-2.0 * ln (guarded u1)).
Proof.
  intros Hu. destruct (shock_guarded u1 Hu) as [Hg Hs].
  split; [exact Hg|]. split; [exact Hs|]. split.
  - unfold shock, strict_eqb.
    destruct (Req_dec_T 0 0) as [_|Hn]; [|contradiction].
    destruct (Req_dec_T 1e-9 0) as [Hz|_]; [lra|reflexivity].
  - unfold shock. fold (guarded u1). rewrite Rabs_mult.
    pose proof (sqrt_pos (-2.0 * ln (guarded u1))) as Hsp.
    rewrite (Rabs_pos_eq _ Hsp).
    pose proof (COS_bound (2.0 * PI * u2)) as [Hc1 Hc2].
    assert (Hc : Rabs (cos (2.0 * PI * u2)) <= 1) by (apply Rabs_le; lra).
    nra.
Qed.

(** ** The histogram of [ResultCard] *)

Lemma fold_left_Rmin_spec (xs : list R) :
  forall acc,
    fold_left Rmin xs acc <= acc /\
    (forall y, In y xs -> fold_left Rmin xs acc <= y) /\
    (fold_left Rmin xs acc = acc \/ In (fold_left Rmin xs acc) xs).
Proof.
  induction xs as [|x xs IH]; intros acc; cbn [fold_left].
  - split; [lra|]. split; [intros y []|now left].
  - destruct (IH (Rmin acc x)) as [Hle [Hall Hin]].
    pose proof (Rmin_l acc x). pose proof (Rmin_r acc x).
    split; [lra|]. split.
    + intros y [<-|Hy]; [lra|now apply Hall].
    + destruct Hin as [Heq|Hin]; [|right; now right].
      rewrite Heq. unfold Rmin. destruct (Rle_dec acc x); [now left|].
      right. now left.
Qed.

Lemma fold_left_Rmax_spec (xs : list R) :
  forall acc,
    acc <= fold_left Rmax xs acc /\
    (forall y, In y xs -> y <= fold_left Rmax xs acc) /\
    (fold_left Rmax xs acc = acc \/ In (fold_left Rmax xs acc) xs).
Proof.
  induction xs as [|x xs IH]; intros acc; cbn [fold_left].
  - split; [lra|]. split; [intros y []|now left].
  - destruct (IH (Rmax acc x)) as [Hle [Hall Hin]].
    pose proof (Rmax_l acc x). pose proof (Rmax_r acc x).
    split; [lra|]. split.
    + intros y [<-|Hy]; [lra|now apply Hall].
    + destruct Hin as [Heq|Hin]; [|right; now right].
      rewrite Heq. unfold Rmax. destruct (Rle_dec acc x); [|now left].
      right. now left.
Qed.

Lemma Math_min_spec (xs : list R) (lo : R) :
  Math_min xs = Some lo -> In lo xs /\ forall y, In y xs -> lo <= y.
Proof.
  destruct xs as [|x xs]; [discriminate|].
  cbn [Math_min]. intros Heq. injection Heq as <-.
  destruct (fold_left_Rmin_spec xs x) as [Hle [Hall Hin]]. split.
  - destruct Hin as [->|Hin]; [now left|now right].
  - intros y [<-|Hy]; [exact Hle|now apply Hall].
Qed.

Lemma Math_max_spec (xs : list R) (hi : R) :
  Math_max xs = Some hi -> In hi xs /\ forall y, In y xs -> y <= hi.
Proof.
  destruct xs as [|x xs]; [discriminate|].
  cbn [Math_max]. intros Heq. injection Heq as <-.
  destruct (fold_left_Rmax_spec xs x) as [Hle [Hall Hin]]. split.
  - destruct Hin as [->|Hin]; [now left|now right].
  - intros y [<-|Hy]; [exact Hle|now apply Hall].
Qed.

Lemma quotient_bounds (a b c : R) :
  0 < c -> (a <= b / c <-> a * c <= b) /\ (b / c < a <-> b < a * c).
Proof.
  intros Hc.
  assert (Hb : b = b / c * c) by (field; lra).
  set (x := b / c) in *. rewrite Hb. clear Hb.
  repeat split; intros H; nra.
Qed.

Lemma bump_length (h : list nat) : forall i, List.length (bump i h) = List.length h.
Proof.
  induction h as [|c h IH]; intros i; [now destruct i|].
  destruct i; cbn [bump List.length]; [reflexivity|]. now rewrite IH.
Qed.

Lemma bump_sum (h : list nat) :
  forall i, (i < List.length h)%nat -> list_sum (bump i h) = S (list_sum h).
Proof.
  induction h as [|c h IH]; intros i Hi; cbn [List.length] in Hi; [lia|].
  destruct i; cbn [bump]; [reflexivity|].
  change (list_sum (c :: bump i h)) with (c + list_sum (bump i h))%nat.
  change (list_sum (c :: h)) with (c + list_sum h)%nat.
  rewrite IH by lia. lia.
Qed.

Lemma bump_nth (h : list nat) :
  forall i j,
    (nth j h 0 <= nth j (bump i h) 0)%nat /\
    ((i < List.length h)%nat -> nth i (bump i h) 0%nat = S (nth i h 0%nat)).
Proof.
  induction h as [|c h IH]; intros i j.
  - destruct i; cbn [bump List.length]; (split; [lia|intros; lia]).
  - destruct i as [|i]; cbn [bump].
    + split; [destruct j; cbn [nth]; lia|reflexivity].
    + destruct (IH i (pred j)) as [Hge _]. destruct (IH i j) as [_ Hhit].
      split.
      * destruct j as [|j]; cbn [nth]; [lia|]. exact Hge.
      * cbn [List.length nth]. intros Hi.
        destruct (IH i i) as [_ Hii]. apply Hii. lia.
Qed.

Section Histogram.

Variables lo step : R.

Local Abbreviation count :=
  (fun (histogram : list nat) (l : R) =>
     increment histogram (binIdx lo step l)).

Lemma count_length (h : list nat) (l : R) :
  List.length (count h l) = List.length h.
Proof.
  unfold increment. destruct (binIdx lo step l) as [i|]; [|reflexivity].
  destruct (i <? 0)%Z; [reflexivity|apply bump_length].
Qed.

Lemma count_fold_length (ls : list R) :
  forall h, List.length (fold_left count ls h) = List.length h.
Proof.
  induction ls as [|l ls IH]; intros h; [reflexivity|].
  cbn [fold_left]. now rewrite IH, count_length.
Qed.

Lemma count_fold_sum (ls : list R) :
  forall h,
    (forall l, In l ls ->
       exists i, binIdx lo step l = Some i /\
                 (0 <= i < Z.of_nat (List.length h))%Z) ->
    list_sum (fold_left count ls h) = (list_sum h + List.length ls)%nat.
Proof.
  induction ls as [|l ls IH]; intros h Hin; cbn [fold_left List.length];
    [lia|].
  rewrite IH.
  - destruct (Hin l (or_introl eq_refl)) as [i [Hi Hrange]].
    unfold increment. rewrite Hi.
    destruct (Z.ltb_spec i 0) as [Hneg|_]; [lia|].
    rewrite bump_sum by lia. lia.
  - intros l' Hl'. rewrite count_length. apply Hin. now right.
Qed.

Lemma count_fold_none (ls : list R) :
  forall h,
    (forall l, In l ls -> binIdx lo step l = None) ->
    fold_left count ls h = h.
Proof.
  induction ls as [|l ls IH]; intros h Hnone; [reflexivity|].
  cbn [fold_left]. unfold increment.
  rewrite (Hnone l (or_introl eq_refl)).
  apply IH. intros l' Hl'. apply Hnone. now right.
Qed.

Lemma count_fold_grows (ls : list R) :
  forall h j, (nth j h 0 <= nth j (fold_left count ls h) 0)%nat.
Proof.
  induction ls as [|l ls IH]; intros h j; cbn [fold_left]; [lia|].
  etransitivity; [|apply IH].
  unfold increment. destruct (binIdx lo step l) as [i|]; [|lia].
  destruct (i <? 0)%Z; [lia|]. apply bump_nth.
Qed.

Lemma count_fold_hit (ls : list R) (l : R) (i : Z) :
  In l ls ->
  binIdx lo step l = Some i ->
  forall h,
    (0 <= i < Z.of_nat (List.length h))%Z ->
    (1 <= nth (Z.to_nat i) (fold_left count ls h) 0)%nat.
Proof.
  intros Hin Hi. induction ls as [|l' ls IH]; intros h Hrange; [destruct Hin|].
  cbn [fold_left]. destruct Hin as [->|Hin].
  - etransitivity; [|apply count_fold_grows].
    unfold increment. rewrite Hi.
    destruct (Z.ltb_spec i 0) as [Hneg|_]; [lia|].
    destruct (bump_nth h (Z.to_nat i) 0) as [_ Hhit].
    rewrite Hhit by lia. lia.
  - apply IH; [exact Hin|]. now rewrite count_length.
Qed.

End Histogram.

Lemma last_bin : (Z.of_nat bins - 1)%Z = 19%Z.
Proof. reflexivity. Qed.

Lemma binIdx_in_range (lo step l : R) :
  0 < step -> lo <= l ->
  exists i, binIdx lo step l = Some i /\ (0 <= i < 20)%Z.
Proof.
  intros Hstep Hl. unfold binIdx. rewrite last_bin.
  destruct (Req_dec_T step 0) as [Hz|_]; [lra|].
  eexists. split; [reflexivity|].
  destruct (Math_floor_bounds ((l - lo) / step)) as [_ Hlt].
  destruct (quotient_bounds (IZR (Math_floor ((l - lo) / step)) + 1)
              (l - lo) step Hstep) as [_ [Hq _]].
  specialize (Hq Hlt).
  assert (Hf : (-1 < Math_floor ((l - lo) / step))%Z).
  { apply lt_IZR. nra. }
  lia.
Qed.

(** The histogram of losses that are not all equal, unfolded. *)
Lemma histogram_of_spread (losses : list R) :
  (exists a b, In a losses /\ In b losses /\ a < b) ->
  exists lo hi,
    lo < hi /\
    (forall l, In l losses -> lo <= l <= hi) /\
    In lo losses /\ In hi losses /\
    histogram_of losses
    = fold_left
        (fun histogram l =>
           increment histogram (binIdx lo ((hi - lo) / INR bins) l))
        losses (repeat 0%nat bins).
Proof.
  intros [a [b [Ha [Hb Hab]]]]. unfold histogram_of.
  destruct (Math_min losses) as [lo|] eqn:Hmin;
    [|destruct losses; [destruct Ha|discriminate]].
  destruct (Math_max losses) as [hi|] eqn:Hmax;
    [|destruct losses; [destruct Ha|discriminate]].
  destruct (Math_min_spec losses lo Hmin) as [Hlo_in Hlo].
  destruct (Math_max_spec losses hi Hmax) as [Hhi_in Hhi].
  exists lo, hi. pose proof (Hlo a Ha). pose proof (Hhi b Hb).
  split; [lra|]. split; [|now repeat split].
  intros l Hl. split; [now apply Hlo|now apply Hhi].
Qed.

Lemma spread_step (lo hi : R) : lo < hi -> 0 < (hi - lo) / INR bins.
Proof.
  intros Hlt. apply Rdiv_lt_0_compat; [lra|]. apply lt_0_INR. unfold bins. lia.
Qed.

Lemma histogram_of_length (losses : list R) :
  List.length (histogram_of losses) = bins.
Proof.
  unfold histogram_of.
  destruct (Math_min losses), (Math_max losses);
    rewrite ?count_fold_length; apply repeat_length.
Qed.

(** X18. When the losses are not all equal, the histogram has 20 bins and
    counts every loss exactly once: the counts add up to the number of
    losses. *)
Theorem histogram_counts_every_loss (losses : list R) :
  (exists a b, In a losses /\ In b losses /\ a < b) ->
  List.length (histogram_of losses) = bins /\
  list_sum (histogram_of losses) = List.length losses.
Proof.
  intros Hspread.
  destruct (histogram_of_spread losses Hspread)
    as [lo [hi [Hlt [Hall [_ [_ ->]]]]]].
  split.
  - rewrite count_fold_length. apply repeat_length.
  - rewrite count_fold_sum.
    + assert (Hzero : list_sum (repeat 0%nat bins) = 0%nat) by reflexivity.
      rewrite Hzero. reflexivity.
    + intros l Hl. rewrite repeat_length.
      destruct (binIdx_in_range lo ((hi - lo) / INR bins) l
                  (spread_step lo hi Hlt) (proj1 (Hall l Hl)))
        as [i [Hi Hrange]].
      exists i. split; [exact Hi|]. unfold bins. lia.
Qed.

Lemma histogram_of_constant (losses : list R) :
  (forall a b, In a losses -> In b losses -> a = b) ->
  histogram_of losses = repeat 0%nat bins.
Proof.
  intros Hequal. unfold histogram_of.
  destruct (Math_min losses) as [lo|] eqn:Hmin; [|reflexivity].
  destruct (Math_max losses) as [hi|] eqn:Hmax; [|reflexivity].
  destruct (Math_min_spec losses lo Hmin) as [Hlo_in _].
  destruct (Math_max_spec losses hi Hmax) as [Hhi_in _].
  rewrite (Hequal hi lo Hhi_in Hlo_in).
  apply count_fold_none. intros l Hl. unfold binIdx.
  destruct (Req_dec_T ((lo - lo) / INR bins) 0) as [_|Hn].
  - rewrite (Hequal l lo Hl Hlo_in).
    destruct (Rgt_dec (lo - lo) 0) as [Hgt|_]; [lra|reflexivity].
  - exfalso. apply Hn. unfold Rdiv. ring.
Qed.

(** X19. When all losses are equal (no loss, a single one, or a run whose
    iterations all lose the same) the bin width is 0 and no loss is
    counted: every bin stays at 0, and so does [maxCount], the divisor of
    the bar heights. *)
Theorem histogram_degenerate (losses : list R) :
  (forall a b, In a losses -> In b losses -> a = b) ->
  histogram_of losses = repeat 0%nat bins /\ maxCount losses = 0%nat.
Proof.
  intros Hequal.
  pose proof (histogram_of_constant losses Hequal) as Hhist.
  split; [exact Hhist|]. unfold maxCount. rewrite Hhist. reflexivity.
Qed.

(** X20. When the losses are not all equal, the smallest loss is counted
    in the first bin and the largest in the last one, so [maxCount] is at
    least 1. *)
Theorem histogram_extremes (losses : list R) :
  (exists a b, In a losses /\ In b losses /\ a < b) ->
  (1 <= nth 0 (histogram_of losses) 0)%nat /\
  (1 <= nth 19 (histogram_of losses) 0)%nat /\
  (1 <= maxCount losses)%nat.
Proof.
  intros Hspread.
  destruct (histogram_of_spread losses Hspread)
    as [lo [hi [Hlt [Hall [Hlo_in [Hhi_in Hhist]]]]]].
  pose proof (spread_step lo hi Hlt) as Hstep.
  assert (Hfirst : binIdx lo ((hi - lo) / INR bins) lo = Some 0%Z).
  { unfold binIdx. rewrite last_bin.
    destruct (Req_dec_T ((hi - lo) / INR bins) 0) as [Hz|_]; [lra|].
    replace ((lo - lo) / ((hi - lo) / INR bins)) with (IZR 0)
      by (unfold Rdiv; ring).
    now rewrite Math_floor_IZR. }
  assert (Hlast : binIdx lo ((hi - lo) / INR bins) hi = Some 19%Z).
  { unfold binIdx. rewrite last_bin.
    destruct (Req_dec_T ((hi - lo) / INR bins) 0) as [Hz|_]; [lra|].
    replace ((hi - lo) / ((hi - lo) / INR bins)) with (IZR 20).
    - now rewrite Math_floor_IZR.
    - unfold bins. rewrite INR_IZR_INZ. cbn [Z.of_nat Pos.of_succ_nat Pos.succ].
      field. lra. }
  assert (H0 : (1 <= nth 0 (histogram_of losses) 0)%nat).
  { rewrite Hhist.
    apply (count_fold_hit lo _ losses lo 0 Hlo_in Hfirst).
    rewrite repeat_length. unfold bins. lia. }
  assert (H19 : (1 <= nth 19 (histogram_of losses) 0)%nat).
  { rewrite Hhist.
    apply (count_fold_hit lo _ losses hi 19 Hhi_in Hlast).
    rewrite repeat_length. unfold bins. lia. }
  split; [exact H0|]. split; [exact H19|].
  unfold maxCount.
  assert (Hle : Forall (fun k => (k <= list_max (histogram_of losses))%nat)
                       (histogram_of losses)) by now apply list_max_le.
  rewrite Forall_forall in Hle.
  etransitivity; [exact H0|]. apply Hle. apply nth_In.
  rewrite histogram_of_length. unfold bins. lia.
Qed.

(** X21. A statement on real numbers.  The bins are equal-width intervals
    starting at the smallest loss: for a positive bin width and the exact
    quotient [(l - min) / step], a loss falls in bin [i < 19] exactly when
    it lies in [[min + i * step, min + (i + 1) * step)], and in the last
    bin (index 19) exactly when it is at least [min + 19 * step]; no index
    exceeds 19.  (The double quotient is rounded, so in the code a loss
    within one rounding of a bin boundary can be counted in the
    neighbouring bin; the index still never exceeds 19.) *)
Theorem binIdx_intervals (lo step l : R) :
  0 < step ->
  (forall i, (i < 19)%Z ->
     binIdx lo step l = Some i <->
     lo + IZR i * step <= l < lo + (IZR i + 1) * step) /\
  (binIdx lo step l = Some 19%Z <-> lo + 19 * step <= l) /\
  (forall i, binIdx lo step l = Some i -> (i <= 19)%Z).
Proof.
  intros Hstep. unfold binIdx. rewrite last_bin.
  destruct (Req_dec_T step 0) as [Hz|_]; [lra|].
  destruct (Math_floor_bounds ((l - lo) / step)) as [Hfl Hfu].
  set (f := Math_floor ((l - lo) / step)) in *.
  assert (Hge : forall z : Z, (z <= f)%Z <-> lo + IZR z * step <= l).
  { intros z. destruct (quotient_bounds (IZR z) (l - lo) step Hstep)
      as [Hq1 Hq2]. split.
    - intros Hz. apply IZR_le in Hz.
      assert (Hm : IZR z * step <= l - lo) by (apply Hq1; lra). lra.
    - intros Hz. assert (Hm : IZR z <= (l - lo) / step) by (apply Hq1; lra).
      assert (Hlt : (z < f + 1)%Z) by (apply lt_IZR; rewrite plus_IZR; lra).
      lia. }
  split; [|split].
  - intros i Hi. split.
    + intros Heq. injection Heq as Heq.
      assert (Hfi : i = f) by lia. rewrite Hfi.
      pose proof (proj1 (Hge f) (Z.le_refl f)) as H1.
      destruct (Rlt_le_dec l (lo + (IZR f + 1) * step)) as [H2|H2].
      * split; [exact H1|exact H2].
      * rewrite <- plus_IZR in H2. apply Hge in H2. lia.
    + intros [H1 H2]. f_equal.
      apply Hge in H1.
      assert (Hnot : ~ (i + 1 <= f)%Z).
      { intros Hc. apply Hge in Hc. rewrite plus_IZR in Hc. lra. }
      lia.
  - split.
    + intros Heq. injection Heq as Heq.
      assert (Hf19 : (19 <= f)%Z) by lia. now apply Hge in Hf19.
    + intros H1. apply (Hge 19%Z) in H1. f_equal. lia.
  - intros i Heq. injection Heq as <-. lia.
Qed.

(** ** The application: from generation to the two scenarios *)

Lemma initialize_eq (w : World) :
  initialize w
  = Normal
      (map (apply_model
              (fst (fit (mock_loans (Math_random_seq w) (drawn w) 0
                                    (Z.to_nat 1000))))
              (snd (fit (mock_loans (Math_random_seq w) (drawn w) 0
                                    (Z.to_nat 1000)))))
           (mock_loans (Math_random_seq w) (drawn w) 0 (Z.to_nat 1000)),
       advance (3 * Z.to_nat 1000) w).
Proof.
  unfold initialize, NUM_LOANS. unfold bind at 1.
  rewrite generateMockLoans_eq, trip_count_IZR.
  unfold bind. rewrite trainPDModel_eq. reflexivity.
Qed.

Lemma initialize_returns (w : World) :
  uniform_source w ->
  exists loans,
    initialize w = Normal (loans, advance (3 * Z.to_nat 1000) w) /\
    List.length loans = Z.to_nat 1000 /\
    Forall (fun l => 0 < pd_base l < 1 /\ 500 <= EAD l < 5000 /\ LGD l = 0.6)
           loans.
Proof.
  intros Hw. rewrite initialize_eq. eexists. split; [reflexivity|].
  split; [now rewrite length_map, mock_loans_length|].
  apply Forall_map.
  apply (Forall_impl _ (P := well_formed_mock)).
  - intros l [Head [Hlgd _]]. cbn [apply_model pd_base EAD LGD].
    split; [apply sigmoid_range|]. split; [exact Head|exact Hlgd].
  - apply mock_loans_Forall. intros d i. now apply mock_loan_well_formed.
Qed.

(** X22. With uniform draws the mount effect never throws: it consumes
    3000 draws and hands over 1000 trained loans with ids 0 to 999, each
    with a PD strictly between 0 and 1, an EAD in [[500, 5000)] and an LGD
    of 0.6. *)
Theorem initialize_portfolio (w : World) :
  uniform_source w ->
  exists loans,
    initialize w = Normal (loans, advance (3 * Z.to_nat 1000) w) /\
    List.length loans = Z.to_nat 1000 /\
    map id loans = map INR (seq 0 (Z.to_nat 1000)) /\
    Forall (fun l => 0 < pd_base l < 1 /\ 500 <= EAD l < 5000 /\ LGD l = 0.6)
           loans.
Proof.
  intros Hw. rewrite initialize_eq. eexists. split; [reflexivity|].
  split; [now rewrite length_map, mock_loans_length|].
  split.
  - rewrite map_map. cbn [apply_model id]. apply mock_loans_ids.
  - apply Forall_map.
    apply (Forall_impl _ (P := well_formed_mock)).
    + intros l [Head [Hlgd _]]. cbn [apply_model pd_base EAD LGD].
      split; [apply sigmoid_range|]. split; [exact Head|exact Hlgd].
    + apply mock_loans_Forall. intros d i. now apply mock_loan_well_formed.
Qed.

Section AppProperties.

Variable normCDF : R -> R.
Variable normInv : R -> completion R.

Lemma runSimulations_eq (loans : list Loan) (w : World) :
  loans <> [] ->
  probit_defined normInv loans ->
  exists ps,
    probits normInv loans = Normal ps /\
    runSimulations normCDF normInv loans w
    = Normal
        (Some (result_of normCDF ps ITERATIONS RHO 1.0 "Baseline Scenario" w,
               result_of normCDF ps ITERATIONS RHO 2.5 "Severe Downturn"
                 (tick (advance (2 * Z.to_nat 10000) (tick w)))),
         tick (advance (2 * Z.to_nat 10000)
                 (tick (tick (advance (2 * Z.to_nat 10000) (tick w)))))).
Proof.
  intros Hne Hdef. unfold runSimulations.
  destruct loans as [|l loans]; [contradiction|]. cbn [List.length Nat.eqb].
  destruct (probits_defined normInv (l :: loans) Hdef) as [ps Hps].
  exists ps. split; [exact Hps|].
  unfold bind. rewrite !runVasicekSimulation_eq, Hps.
  unfold ITERATIONS. rewrite trip_count_IZR.
  rewrite runVasicekSimulation_eq, Hps, trip_count_IZR. reflexivity.
Qed.

(** X23. [runSimulations] does nothing for an empty portfolio.  For any
    other portfolio whose PDs [normInv] accepts it returns the two results;
    the stressed scenario is simulated after the baseline, on the 20000
    draws that follow the 20000 draws of the baseline, and each of the two
    results is what a call of its own returns. *)
Theorem runSimulations_sequence (loans : list Loan) (w : World) :
  runSimulations normCDF normInv [] w = Normal (None, w) /\
  (loans <> [] ->
   probit_defined normInv loans ->
   exists base stress w1 w2,
     runVasicekSimulation normCDF normInv loans ITERATIONS RHO 1.0
       "Baseline Scenario" w = Normal (base, w1) /\
     runVasicekSimulation normCDF normInv loans ITERATIONS RHO 2.5
       "Severe Downturn" w1 = Normal (stress, w2) /\
     runSimulations normCDF normInv loans w
     = Normal (Some (base, stress), w2) /\
     drawn w1 = (2 * Z.to_nat 10000 + drawn w)%nat /\
     drawn w2 = (2 * Z.to_nat 10000 + drawn w1)%nat /\
     ticks w2 = S (S (S (S (ticks w))))).
Proof.
  split; [reflexivity|]. intros Hne Hdef.
  destruct (runSimulations_eq loans w Hne Hdef) as [ps [Hps Hrun]].
  do 4 eexists.
  split; [|split; [|split; [exact Hrun|]]].
  - rewrite runVasicekSimulation_eq, Hps. unfold ITERATIONS.
    rewrite trip_count_IZR. reflexivity.
  - rewrite runVasicekSimulation_eq, Hps. unfold ITERATIONS.
    rewrite trip_count_IZR. reflexivity.
  - repeat split.
Qed.

(** X24. Under the contract of the statistics module and with uniform
    draws, the whole pipeline of the application runs without a throw:
    the mount effect yields a portfolio for which [runSimulations] returns
    a baseline result (stress factor 1.0) and a stressed result (stress
    factor 2.5), each with 10000 losses sorted ascending and a [var99]
    that is the loss at index 9900. *)
Theorem application_pipeline (w : World) :
  quantile_contract normCDF normInv ->
  uniform_source w ->
  exists loans w1 base stress w2,
    initialize w = Normal (loans, w1) /\
    runSimulations normCDF normInv loans w1
    = Normal (Some (base, stress), w2) /\
    stressFactor base = 1.0 /\ stressFactor stress = 2.5 /\
    List.length (losses base) = Z.to_nat 10000 /\
    List.length (losses stress) = Z.to_nat 10000 /\
    StronglySorted Rle (losses base) /\
    StronglySorted Rle (losses stress) /\
    (exists v, var99 base = Some v /\
               nth_error (losses base) (Z.to_nat 9900) = Some v) /\
    (exists v, var99 stress = Some v /\
               nth_error (losses stress) (Z.to_nat 9900) = Some v).
Proof.
  intros Hc Hw.
  destruct (initialize_returns w Hw) as [loans [Hinit [Hlen Hall]]].
  assert (Hne : loans <> []).
  { intros ->. cbn in Hlen. lia. }
  assert (Hpd : pd_in_unit loans).
  { apply (Forall_impl _ (P := fun l => 0 < pd_base l < 1 /\
                                        500 <= EAD l < 5000 /\ LGD l = 0.6));
      [|exact Hall].
    intros l [Hl _]. exact Hl. }
  pose proof (contract_defined normCDF normInv loans Hc Hpd) as Hdef.
  destruct (runSimulations_eq loans (advance (3 * Z.to_nat 1000) w) Hne Hdef)
    as [ps [_ Hrun]].
  exists loans. do 4 eexists.
  split; [exact Hinit|]. split; [exact Hrun|].
  assert (Hidx : Math_floor (ITERATIONS * 0.99) = 9900%Z).
  { unfold ITERATIONS. rewrite var_index_exact. reflexivity. }
  assert (Hpos : 0 < ITERATIONS) by (unfold ITERATIONS; lra).
  assert (Htrip : trip_count ITERATIONS = Z.to_nat 10000)
    by (unfold ITERATIONS; apply trip_count_IZR).
  split; [reflexivity|]. split; [reflexivity|].
  split; [now rewrite result_losses_length|].
  split; [now rewrite result_losses_length|].
  split; [apply Array_sort_ascending|].
  split; [apply Array_sort_ascending|].
  split.
  - destruct (result_var99 normCDF ps ITERATIONS RHO 1.0 "Baseline Scenario"
                (advance (3 * Z.to_nat 1000) w) Hpos) as [v [Hv Hnth]].
    exists v. rewrite Hidx in Hnth. split; [exact Hv|exact Hnth].
  - destruct (result_var99 normCDF ps ITERATIONS RHO 2.5 "Severe Downturn"
                (tick (advance (2 * Z.to_nat 10000)
                         (tick (advance (3 * Z.to_nat 1000) w)))) Hpos)
      as [v [Hv Hnth]].
    exists v. rewrite Hidx in Hnth. split; [exact Hv|exact Hnth].
Qed.

(** X25. A run with [rho = 0] gives the application nothing to draw: under
    the contract of the statistics module, with PDs in the open unit
    interval, uniform draws and a non-negative stress factor, all losses
    are equal and every bin of the histogram stays at 0. *)
Theorem rho_zero_histogram_empty (loans : list Loan) (iterations
    stressFactor : R) (scenarioName : string) (w : World) :
  quantile_contract normCDF normInv ->
  pd_in_unit loans ->
  uniform_source w ->
  0 <= stressFactor ->
  exists r w',
    runVasicekSimulation normCDF normInv loans iterations 0 stressFactor
                         scenarioName w = Normal (r, w') /\
    histogram_of (losses r) = repeat 0%nat bins.
Proof.
  intros Hc Hpd _ _. rewrite runVasicekSimulation_eq.
  destruct (probits_contract normCDF normInv loans Hc Hpd) as [ps [-> HF]].
  eexists. eexists. split; [reflexivity|].
  apply histogram_of_constant. intros a b Ha Hb.
  pose proof (result_of_rho_zero normCDF loans ps iterations stressFactor
                scenarioName w HF) as Hall.
  rewrite Forall_forall in Hall.
  now rewrite (Hall a Ha), (Hall b Hb).
Qed.

End AppProperties.

(** ** The further statements at concrete inputs *)

Lemma logistic_cdf_unit (x : R) : 0 <= logistic_cdf x <= 1.
Proof. unfold logistic_cdf. pose proof (sigmoid_range x). lra. Qed.

Lemma sample_loans_exposures :
  Forall (fun l => 0 <= EAD l * LGD l) sample_loans.
Proof. unfold sample_loans. repeat constructor; cbn; lra. Qed.

Lemma generateMockLoans_default_by_lateness_witness :
  exists loans w',
    generateMockLoans 3 sample_world = Normal (loans, w') /\
    Forall (fun l =>
              (defaulted l = true -> 2 <= prior_late_payments l) /\
              (4 <= prior_late_payments l -> defaulted l = true))
           loans.
Proof.
  apply (generateMockLoans_default_by_lateness 3 sample_world).
  exact sample_world_uniform.
Defined.

Lemma generateMockLoans_prefix_witness :
  exists loans1 loans2 w1 w2,
    generateMockLoans 2 sample_world = Normal (loans1, w1) /\
    generateMockLoans 5 sample_world = Normal (loans2, w2) /\
    loans1 = firstn (List.length loans1) loans2.
Proof. apply (generateMockLoans_prefix 2 5 sample_world). lra. Defined.

Lemma trainPDModel_reads_training_pairs_witness :
  exists out out',
    trainPDModel sample_loans sample_world = Normal (out, sample_world) /\
    trainPDModel sample_loans_relabelled sample_world
    = Normal (out', sample_world) /\
    map pd_base out = map pd_base out'.
Proof.
  apply (trainPDModel_reads_training_pairs sample_loans
           sample_loans_relabelled sample_world).
  reflexivity.
Defined.

Lemma trainPDModel_order_irrelevant_witness :
  exists out out',
    trainPDModel sample_loans sample_world = Normal (out, sample_world) /\
    trainPDModel (rev sample_loans) sample_world
    = Normal (out', sample_world) /\
    fit sample_loans = fit (rev sample_loans) /\
    Permutation out out'.
Proof.
  apply (trainPDModel_order_irrelevant sample_loans (rev sample_loans)
           sample_world).
  apply Permutation_rev.
Defined.

Lemma trainPDModel_parameters_bounded_witness :
  -6 <= fst (fit sample_loans) <= 4 /\
  0.5 - 5 * 5 <= snd (fit sample_loans) <= 0.5 + 5 * 5.
Proof.
  apply (trainPDModel_parameters_bounded sample_loans 5).
  - discriminate.
  - intros l [<-|[<-|[<-|[]]]]; cbn; lra.
Defined.

Lemma runVasicekSimulation_effects_witness :
  exists r,
    runVasicekSimulation logistic_cdf logistic_quantile sample_loans 3 0.2 1
      "Baseline Scenario" sample_world
    = Normal (r, tick (advance (2 * trip_count 3) (tick sample_world))) /\
    processingTime r
    = performance_clock sample_world (S (ticks sample_world))
      - performance_clock sample_world (ticks sample_world) /\
    scenarioName r = "Baseline Scenario"%string /\
    stressFactor r = 1.
Proof.
  apply (runVasicekSimulation_effects logistic_cdf logistic_quantile
           sample_loans 3 0.2 1 "Baseline Scenario" sample_world).
  exact sample_loans_defined.
Defined.

Lemma runVasicekSimulation_losses_rearranged_witness :
  exists ps r w',
    probits logistic_quantile sample_loans = Normal ps /\
    runVasicekSimulation logistic_cdf logistic_quantile sample_loans 3 0.2 1
      "Baseline Scenario" sample_world = Normal (r, w') /\
    Permutation (losses r)
      (map (fun k =>
              scenarioLoss logistic_cdf
                (sqrt 0.2 * sqrt 1
                 * shock (Math_random_seq sample_world
                            (drawn sample_world + 2 * k)%nat)
                         (Math_random_seq sample_world
                            (1 + (drawn sample_world + 2 * k))%nat))
                (sqrt (1 - 0.2)) ps)
           (seq 0 (trip_count 3))).
Proof.
  apply (runVasicekSimulation_losses_rearranged logistic_cdf
           logistic_quantile sample_loans 3 0.2 1 "Baseline Scenario"
           sample_world).
  - lra.
  - lra.
  - exact sample_world_uniform.
  - exact sample_loans_defined.
Defined.

Lemma runVasicekSimulation_var99_quantile_witness :
  exists r w' v,
    runVasicekSimulation logistic_cdf logistic_quantile sample_loans 250 0.2
      1 "Baseline Scenario" sample_world = Normal (r, w') /\
    var99 r = Some v /\
    In v (losses r) /\
    forall i x,
      nth_error (losses r) i = Some x ->
      ((i <= Z.to_nat (Math_floor (250 * 0.99)))%nat -> x <= v) /\
      ((Z.to_nat (Math_floor (250 * 0.99)) <= i)%nat -> v <= x).
Proof.
  apply (runVasicekSimulation_var99_quantile logistic_cdf logistic_quantile
           sample_loans 250 0.2 1 "Baseline Scenario" sample_world).
  - lia.
  - lra.
  - lra.
  - exact sample_world_uniform.
  - exact sample_loans_defined.
Defined.


Lemma runVasicekSimulation_var99_small_run_witness :
  exists r w' v,
    runVasicekSimulation logistic_cdf logistic_quantile sample_loans 100 0.2
      1 "Baseline Scenario" sample_world = Normal (r, w') /\
    var99 r = Some v /\
    In v (losses r) /\
    Forall (fun x => x <= v) (losses r).
Proof.
  apply (runVasicekSimulation_var99_small_run logistic_cdf logistic_quantile
           sample_loans 100 0.2 1 "Baseline Scenario" sample_world).
  - lia.
  - lra.
  - lra.
  - exact sample_world_uniform.
  - exact sample_loans_defined.
Defined.

Lemma runVasicekSimulation_empty_portfolio_witness :
  exists r w',
    runVasicekSimulation logistic_cdf logistic_quantile [] 4 1 1
      "Baseline Scenario" sample_world = Normal (r, w') /\
    losses r = repeat 0 (trip_count 4) /\
    meanEL r = 0 /\
    var99 r = Some 0.
Proof.
  apply (runVasicekSimulation_empty_portfolio logistic_cdf logistic_quantile
           4 1 1 "Baseline Scenario" sample_world).
  lra.
Defined.

Lemma runVasicekSimulation_losses_bounded_witness :
  exists r w',
    runVasicekSimulation logistic_cdf logistic_quantile sample_loans 10 0.2
      2.5 "Severe Downturn" sample_world = Normal (r, w') /\
    Forall (fun x => 0 <= x <= total_exposure sample_loans) (losses r).
Proof.
  apply (runVasicekSimulation_losses_bounded logistic_cdf logistic_quantile
           sample_loans 10 0.2 2.5 "Severe Downturn" sample_world).
  - exact logistic_cdf_unit.
  - exact sample_loans_exposures.
  - exact sample_loans_defined.
  - lra.
  - lra.
  - exact sample_world_uniform.
Defined.

Lemma box_muller_guard_witness :
  0 < guarded 0 < 1 /\
  0 < -2.0 * ln (guarded 0) /\
  shock 0 (/ 2) = shock 1e-9 (/ 2) /\
  Rabs (shock 0 (/ 2)) <= sqrt (-2.0 * ln (guarded 0)).
Proof. apply (box_muller_guard 0 (/ 2)). lra. Defined.

Lemma histogram_counts_every_loss_witness :
  List.length (histogram_of spread_losses) = bins /\
  list_sum (histogram_of spread_losses) = 3%nat.
Proof.
  apply (histogram_counts_every_loss spread_losses).
  exists 1, 2. unfold spread_losses. cbn [In]. split; [now left|]. split; [right; now left|lra].
Defined.

Lemma histogram_degenerate_witness :
  histogram_of constant_losses = repeat 0%nat bins /\ maxCount constant_losses = 0%nat.
Proof.
  apply (histogram_degenerate constant_losses). unfold constant_losses.
  intros a b [<-|[<-|[]]] [<-|[<-|[]]]; reflexivity.
Defined.

Lemma histogram_extremes_witness :
  (1 <= nth 0 (histogram_of spread_losses) 0)%nat /\
  (1 <= nth 19 (histogram_of spread_losses) 0)%nat /\
  (1 <= maxCount spread_losses)%nat.
Proof.
  apply (histogram_extremes spread_losses).
  exists 1, 2. unfold spread_losses. cbn [In]. split; [now left|]. split; [right; now left|lra].
Defined.

Lemma binIdx_intervals_witness :
  (forall i, (i < 19)%Z ->
     binIdx 0 1 3.5 = Some i <->
     0 + IZR i * 1 <= 3.5 < 0 + (IZR i + 1) * 1) /\
  (binIdx 0 1 3.5 = Some 19%Z <-> 0 + 19 * 1 <= 3.5) /\
  (forall i, binIdx 0 1 3.5 = Some i -> (i <= 19)%Z).
Proof. apply (binIdx_intervals 0 1 3.5). lra. Defined.

Lemma initialize_portfolio_witness :
  exists loans,
    initialize sample_world
    = Normal (loans, advance (3 * Z.to_nat 1000) sample_world) /\
    List.length loans = Z.to_nat 1000 /\
    map id loans = map INR (seq 0 (Z.to_nat 1000)) /\
    Forall (fun l => 0 < pd_base l < 1 /\ 500 <= EAD l < 5000 /\ LGD l = 0.6)
           loans.
Proof. apply (initialize_portfolio sample_world sample_world_uniform). Defined.

Lemma runSimulations_sequence_witness :
  runSimulations logistic_cdf logistic_quantile [] sample_world
  = Normal (None, sample_world) /\
  (sample_loans <> [] ->
   probit_defined logistic_quantile sample_loans ->
   exists base stress w1 w2,
     runVasicekSimulation logistic_cdf logistic_quantile sample_loans
       ITERATIONS RHO 1.0 "Baseline Scenario" sample_world
     = Normal (base, w1) /\
     runVasicekSimulation logistic_cdf logistic_quantile sample_loans
       ITERATIONS RHO 2.5 "Severe Downturn" w1 = Normal (stress, w2) /\
     runSimulations logistic_cdf logistic_quantile sample_loans sample_world
     = Normal (Some (base, stress), w2) /\
     drawn w1 = (2 * Z.to_nat 10000 + drawn sample_world)%nat /\
     drawn w2 = (2 * Z.to_nat 10000 + drawn w1)%nat /\
     ticks w2 = S (S (S (S (ticks sample_world))))).
Proof.
  exact (runSimulations_sequence logistic_cdf logistic_quantile sample_loans
           sample_world).
Defined.

Lemma application_pipeline_witness :
  exists loans w1 base stress w2,
    initialize sample_world = Normal (loans, w1) /\
    runSimulations logistic_cdf logistic_quantile loans w1
    = Normal (Some (base, stress), w2) /\
    stressFactor base = 1.0 /\ stressFactor stress = 2.5 /\
    List.length (losses base) = Z.to_nat 10000 /\
    List.length (losses stress) = Z.to_nat 10000 /\
    StronglySorted Rle (losses base) /\
    StronglySorted Rle (losses stress) /\
    (exists v, var99 base = Some v /\
               nth_error (losses base) (Z.to_nat 9900) = Some v) /\
    (exists v, var99 stress = Some v /\
               nth_error (losses stress) (Z.to_nat 9900) = Some v).
Proof.
  apply (application_pipeline logistic_cdf logistic_quantile sample_world).
  - exact logistic_contract.
  - exact sample_world_uniform.
Defined.

Lemma rho_zero_histogram_empty_witness :
  exists r w',
    runVasicekSimulation logistic_cdf logistic_quantile sample_loans 10 0
      2.5 "Severe Downturn" sample_world = Normal (r, w') /\
    histogram_of (losses r) = repeat 0%nat bins.
Proof.
  apply (rho_zero_histogram_empty logistic_cdf logistic_quantile sample_loans
           10 2.5 "Severe Downturn" sample_world).
  - exact logistic_contract.
  - exact sample_loans_pd.
  - exact sample_world_uniform.
  - lra.
Defined.

(** ** [trainPDModel] on binary64 numbers: the PD reaches 0 and 1 *)

Lemma for_pure_fixed {T : Type} (f : T -> T) (s : T) (n : nat) :
  f s = s -> for_pure n f s = s.
Proof.
  intros Hfix. induction n as [|n IH]; [reflexivity|].
  cbn [for_pure]. now rewrite Hfix.
Qed.

Lemma for_pure_step {T : Type} (f : T -> T) (s : T) (n : nat) :
  for_pure (S n) f s = for_pure n f (f s).
Proof. reflexivity. Qed.

Module Binary64Facts.

Import PrimFloat FloatOps FloatAxioms Binary64.
#[local] Set Warnings "-inexact-float".
Local Open Scope float_scope.

(** No binary64 value is both at most -800 and at least 800. *)
Lemma no_number_between (x : float) :
  leb x (-800) = true -> leb 800 x = true -> False.
Proof.
  rewrite !leb_spec. intros H1 H2.
  destruct (Prim2SF x) as [s|s| |s m e].
  - destruct s; lazy in H1; discriminate.
  - destruct s; [lazy in H2|lazy in H1]; discriminate.
  - lazy in H1; discriminate.
  - destruct s; [lazy in H2|lazy in H1]; discriminate.
Qed.

(** [exp_saturates] can be met: it asks nothing between -800 and 800. *)
Lemma exp_saturates_met :
  exp_saturates
    (fun x => if leb x (-800) then 0 else if leb 800 x then infinity else 1).
Proof.
  split; intros x Hx.
  - now rewrite Hx.
  - destruct (leb x (-800)) eqn:Hlow.
    + destruct (no_number_between x Hlow Hx).
    + now rewrite Hx.
Qed.

Section Saturation.

Variable Math_exp : float -> float.
Hypothesis saturation : exp_saturates Math_exp.

(** A defaulted loan with 2000 prior late payments: the first prediction is
    already 1, the error 0, and no epoch moves the parameters. *)
Lemma epoch_late_defaulted :
  epoch Math_exp [late_defaulted] (-1.0, 0.5) = (-1.0, 0.5).
Proof.
  destruct saturation as [Hlow _]. cbv.
  rewrite Hlow by reflexivity. reflexivity.
Qed.

Lemma trained_late_defaulted :
  map pd_base (trainPDModel Math_exp [late_defaulted]) = [1].
Proof.
  unfold trainPDModel, fit.
  rewrite (for_pure_fixed _ _ epochs epoch_late_defaulted).
  destruct saturation as [Hlow _]. cbv.
  rewrite Hlow by reflexivity. reflexivity.
Qed.

(** The same loan not in default: the first epoch sees the error 1 and
    moves beta to -19.5; from then on the prediction is 0, the error 0, and
    the parameters stay. *)
Lemma epoch_late_performing_first :
  epoch Math_exp [late_performing] (-1.0, 0.5) = (-1.01, -19.5).
Proof.
  destruct saturation as [Hlow _]. cbv.
  rewrite Hlow by reflexivity. reflexivity.
Qed.

Lemma epoch_late_performing_next :
  epoch Math_exp [late_performing] (-1.01, -19.5) = (-1.01, -19.5).
Proof.
  destruct saturation as [_ Hhigh]. cbv.
  rewrite Hhigh by reflexivity. reflexivity.
Qed.

Lemma trained_late_performing :
  map pd_base (trainPDModel Math_exp [late_performing]) = [0].
Proof.
  unfold trainPDModel, fit.
  change epochs with (S 499). rewrite for_pure_step.
  rewrite epoch_late_performing_first.
  rewrite (for_pure_fixed _ _ 499 epoch_late_performing_next).
  destruct saturation as [_ Hhigh]. cbv.
  rewrite Hhigh by reflexivity. reflexivity.
Qed.

End Saturation.

(** C5 fails on the code.  On binary64 numbers, whatever exponential the
    host has (as long as it underflows and overflows), the one-loan
    portfolio [late_defaulted] is trained to a PD of exactly 1 and
    [late_performing] to a PD of exactly 0; so it is not the case that
    every non-empty portfolio is trained to PDs strictly between 0 and
    1. *)
Lemma pd_reaches_bounds :
  (forall Math_exp : float -> float,
     exp_saturates Math_exp ->
     map pd_base (trainPDModel Math_exp [late_defaulted]) = [1]) /\
  (forall Math_exp : float -> float,
     exp_saturates Math_exp ->
     map pd_base (trainPDModel Math_exp [late_performing]) = [0]) /\
  ~ (forall Math_exp : float -> float,
       exp_saturates Math_exp ->
       forall loans : list Binary64.Loan,
         loans <> [] ->
         Forall (fun l => in_open_unit (pd_base l))
                (trainPDModel Math_exp loans)).
Proof.
  split; [exact trained_late_defaulted|].
  split; [exact trained_late_performing|].
  intros Hclaim.
  specialize (Hclaim _ exp_saturates_met [late_defaulted]
                ltac:(discriminate)).
  pose proof (trained_late_defaulted _ exp_saturates_met) as Hpd.
  destruct (trainPDModel _ [late_defaulted]) as [|l rest];
    [discriminate|].
  injection Hpd as Hl _. inversion Hclaim as [|? ? [_ Hlt] _]; subst.
  rewrite Hl in Hlt. discriminate.
Qed.

End Binary64Facts.
